(** * Chudnovsky binary splitting (pi.c): a shallow embedding

    The development follows [src/pi.c]:
    - the indices [a], [b], [m], [decimals], [iterations], [num_threads] and
      [chunk] are C [int]s: 32-bit two's complement values, modelled as [Z]
      with the reduction into the [int] range written out after every
      arithmetic operation ([wrap_int]).  Where the mathematical result does
      not fit, ISO C leaves the behaviour undefined; the model takes the
      two's complement result of the usual targets;
    - an [int] handed to a GMP [_ui] function is converted to
      [unsigned long] (64 bits), modelled by [ulong_of_int];
    - [mpz_t] values are unbounded integers, i.e. [Z]; the floating-point
      part of [main] ([mpf_t], [gmp_printf]) is kept abstract as a function
      of its inputs; timing and statistics are left out;
    - [binary_split] is recursive without a structural argument: the model
      takes the depth of the call stack as fuel, and [OutOfFuel] stands for a
      call that has not returned within that depth. *)

From Stdlib Require Import ZArith List Lia Bool String.
Import ListNotations.
Local Open Scope Z_scope.

(** ** C integers *)

Module CInt.

Definition int_min : Z := - 2 ^ 31.
Definition int_max : Z := 2 ^ 31 - 1.

Definition int_range (z : Z) : Prop := int_min <= z <= int_max.

(** Reduction of a mathematical integer into the [int] range. *)
Definition wrap_int (z : Z) : Z := (z + 2 ^ 31) mod 2 ^ 32 - 2 ^ 31.

Definition int_add (x y : Z) : Z := wrap_int (x + y).
Definition int_sub (x y : Z) : Z := wrap_int (x - y).
Definition int_mul (x y : Z) : Z := wrap_int (x * y).
(** C division truncates toward zero. *)
Definition int_div (x y : Z) : Z := wrap_int (Z.quot x y).

(** Conversion of an [int] argument to [unsigned long]. *)
Definition ulong_of_int (z : Z) : Z := z mod 2 ^ 64.

End CInt.
Export CInt.

(** ** Outcomes of a call *)

Inductive outcome (A : Type) : Type :=
| Ret (x : A)          (* the call returned [x] *)
| Misuse               (* [mpz_divexact_ui] applied to a non-multiple *)
| OutOfFuel.           (* the call did not return within the given depth *)

Arguments Ret {A} x.
Arguments Misuse {A}.
Arguments OutOfFuel {A}.

Definition bind {A B : Type} (c : outcome A) (k : A -> outcome B) : outcome B :=
  match c with
  | Ret x => k x
  | Misuse => Misuse
  | OutOfFuel => OutOfFuel
  end.

Notation "x <- c ;; k" := (bind c (fun x => k))
  (at level 61, c at next level, right associativity).

(** ** GMP integer operations used by the program *)

(** [mpz_divexact_ui q n d]: defined only when [d] divides [n]. *)
Definition mpz_divexact_ui (n d : Z) : outcome Z :=
  if n mod d =? 0 then Ret (n / d) else Misuse.

(** ** The PQT triple *)

Record pqt_t : Type := mk_pqt { P : Z; Q : Z; T : Z }.

(** ** binary_split *)

(** Lines 57-91: a single term of the series. *)
Definition leaf (a : Z) : outcome pqt_t :=
  PQ <- (if a =? 0 then
           Ret (1, 1)
         else
           let p := ulong_of_int (int_sub (int_mul 6 a) 5) in
           let p := p * ulong_of_int (int_sub (int_mul 2 a) 1) in
           let p := p * ulong_of_int (int_sub (int_mul 6 a) 1) in
           let p := - p in
           let temp := ulong_of_int a in
           let temp := temp ^ 3 in
           let q := temp * 640320 in
           let q := q * 640320 in
           let q := q * 640320 in
           q <- mpz_divexact_ui q 24 ;;
           Ret (p, q)) ;;
  let temp := 545140134 in
  let temp := temp * ulong_of_int a in
  let temp := temp + 13591409 in
  Ret {| P := fst PQ; Q := snd PQ; T := fst PQ * temp |}.

(** Lines 108-118: combination of the two halves. *)
Definition combine (left right : pqt_t) : pqt_t :=
  let t := Q right * T left in
  let temp := P left * T right in
  {| P := P left * P right;
     Q := Q left * Q right;
     T := t + temp |}.

(** Line 94. *)
Definition midpoint (a b : Z) : Z := int_div (int_add a b) 2.

Fixpoint binary_split (fuel : nat) (a b : Z) : outcome pqt_t :=
  match fuel with
  | O => OutOfFuel
  | S fuel' =>
      if int_sub b a =? 1 then leaf a
      else
        let m := midpoint a b in
        left <- binary_split fuel' a m ;;
        right <- binary_split fuel' m b ;;
        Ret (combine left right)
  end.

(** [binary_split a b] returns [r]. *)
Definition returns (a b : Z) (r : pqt_t) : Prop :=
  exists fuel, binary_split fuel a b = Ret r.

(** The callee of line 101, seen from a call on [(a, b)] that is not a leaf. *)
Definition first_call (ab : Z * Z) : Z * Z :=
  (fst ab, midpoint (fst ab) (snd ab)).

(** ** main *)

(** Line 149: the thread count is clamped. *)
Definition clamp_threads (t : Z) : Z := if t <? 1 then 1 else t.

(** Line 171: argument of [mpf_set_default_prec]. *)
Definition default_prec (decimals : Z) : Z :=
  ulong_of_int (int_mul (int_add decimals 100) 4).

(** Line 174. *)
Definition iterations (decimals : Z) : Z := int_add (int_div decimals 14) 10.

(** Line 206. *)
Definition chunk (iters num_threads : Z) : Z := int_div iters num_threads.

(** Lines 214-215: the range handed to worker [i]. *)
Definition data_a (iters num_threads i : Z) : Z :=
  int_mul i (chunk iters num_threads).

Definition data_b (iters num_threads i : Z) : Z :=
  if i =? int_sub num_threads 1 then iters
  else int_mul (int_add i 1) (chunk iters num_threads).

Definition worker_range (iters num_threads : Z) (i : nat) : Z * Z :=
  (data_a iters num_threads (Z.of_nat i), data_b iters num_threads (Z.of_nat i)).

(** The ranges built by the loop of lines 213-219, [i = 0 .. num_threads - 1]. *)
Definition worker_ranges (iters num_threads : Z) : list (Z * Z) :=
  map (worker_range iters num_threads) (seq 0 (Z.to_nat num_threads)).

(** Lines 128-132: a worker runs [binary_split] on its own range; the
    workers share nothing, so each result is a function of its range. *)
Definition compute_bs_thread (fuel : nat) (ab : Z * Z) : outcome pqt_t :=
  binary_split fuel (fst ab) (snd ab).

(** Lines 239-244: one step of the aggregation loop. *)
Definition aggregate_step (final d : pqt_t) : pqt_t :=
  let temp := Q d * T final in
  let t := P final * T d in
  let t := t + temp in
  {| P := P final * P d; Q := Q final * Q d; T := t |}.

(** Lines 232-248: join workers [1 ..] in order and fold their results. *)
Fixpoint aggregate (fuel : nat) (final : pqt_t) (rest : list (Z * Z))
  : outcome pqt_t :=
  match rest with
  | [] => Ret final
  | ab :: rest' =>
      d <- compute_bs_thread fuel ab ;;
      aggregate fuel (aggregate_step final d) rest'
  end.

(** Lines 206-248: worker 0 is joined first and seeds [final]. *)
Definition parallel_split (fuel : nat) (iters num_threads : Z) : outcome pqt_t :=
  d0 <- compute_bs_thread fuel (worker_range iters num_threads 0) ;;
  aggregate fuel d0
    (map (worker_range iters num_threads) (seq 1 (Z.to_nat num_threads - 1))).

(** The options of the command line, with the numeric arguments as [atoi]
    returned them. *)
Inductive cli_opt : Type :=
| Opt_d (n : Z)
| Opt_t (n : Z)
| Opt_s
| Opt_q
| Opt_h
| Opt_unknown.

(** The locals of [main], GMP's default precision and what was printed.
    [st_default_prec] holds the precision as requested, i.e. the argument
    of [mpf_set_default_prec]; GMP rounds it up to whole limbs. *)
Record main_state : Type := mk_state {
  st_decimals : Z;
  st_num_threads : Z;
  st_show_stats : bool;
  st_quiet_mode : bool;
  st_default_prec : Z;
  st_iterations : Z;
  st_stdout : option string
}.

(** Lines 135-138; GMP starts with a default precision of 64 bits. *)
Definition initial_state : main_state :=
  {| st_decimals := 1000; st_num_threads := 1;
     st_show_stats := false; st_quiet_mode := false;
     st_default_prec := 64; st_iterations := 0; st_stdout := None |}.

(** Lines 142-164; [None] when [main] returns from inside the loop. *)
Fixpoint getopt_loop (opts : list cli_opt) (s : main_state) : option main_state :=
  match opts with
  | [] => Some s
  | Opt_d n :: rest =>
      getopt_loop rest
        (mk_state n (st_num_threads s) (st_show_stats s) (st_quiet_mode s)
                  (st_default_prec s) (st_iterations s) (st_stdout s))
  | Opt_t n :: rest =>
      getopt_loop rest
        (mk_state (st_decimals s) (clamp_threads n) (st_show_stats s)
                  (st_quiet_mode s) (st_default_prec s) (st_iterations s)
                  (st_stdout s))
  | Opt_s :: rest =>
      getopt_loop rest
        (mk_state (st_decimals s) (st_num_threads s) true (st_quiet_mode s)
                  (st_default_prec s) (st_iterations s) (st_stdout s))
  | Opt_q :: rest =>
      getopt_loop rest
        (mk_state (st_decimals s) (st_num_threads s) (st_show_stats s) true
                  (st_default_prec s) (st_iterations s) (st_stdout s))
  | Opt_h :: _ => None
  | Opt_unknown :: _ => None
  end.

(** Line 171. *)
Definition set_default_prec (s : main_state) : main_state :=
  mk_state (st_decimals s) (st_num_threads s) (st_show_stats s)
           (st_quiet_mode s) (default_prec (st_decimals s)) (st_iterations s)
           (st_stdout s).

(** Line 174. *)
Definition set_iterations (s : main_state) : main_state :=
  mk_state (st_decimals s) (st_num_threads s) (st_show_stats s)
           (st_quiet_mode s) (st_default_prec s) (iterations (st_decimals s))
           (st_stdout s).

Section Main.

(** Lines 184-199 and 251-264: GMP's floating-point evaluation of
    [426880 * sqrt 10005 * Q / T] at the default precision and its printing
    with [decimals] digits.  The text is a function of the precision
    requested at line 171, of [decimals] and of the aggregate's [Q] and [T].

    [compute] describes the runs in which this section completes.  Where
    the product of line 171 leaves the [int] range (digit counts above
    536870811) the request is not the intended one: at 536870812 it is
    [2^64 - 2^31] bits (see [C9_precision_overflow]), which GMP cannot
    serve, and the program is killed inside this section instead of
    printing.  What is proved below about a normal return of [main] is
    therefore stated for digit counts up to 536870811 only. *)
Variable gmp_pi_string : Z -> Z -> Z -> Z -> string.

Definition print_pi (s : main_state) (r : pqt_t) : main_state :=
  mk_state (st_decimals s) (st_num_threads s) (st_show_stats s)
           (st_quiet_mode s) (st_default_prec s) (st_iterations s)
           (if st_quiet_mode s then None
            else Some (gmp_pi_string (st_default_prec s) (st_decimals s)
                                     (Q r) (T r))).

(** Lines 176-272. *)
Definition compute (fuel : nat) (s : main_state) : outcome main_state :=
  if st_num_threads s =? 1 then
    result <- binary_split fuel 0 (st_iterations s) ;;
    Ret (print_pi s result)
  else
    final <- parallel_split fuel (st_iterations s) (st_num_threads s) ;;
    Ret (print_pi s final).

(** [main]; [Ret None] when it returns from the option loop. *)
Definition main (fuel : nat) (opts : list cli_opt) : outcome (option main_state) :=
  match getopt_loop opts initial_state with
  | None => Ret None
  | Some s =>
      s' <- compute fuel (set_iterations (set_default_prec s)) ;;
      Ret (Some s')
  end.

End Main.

(** ** Specification-side definitions *)

(** The largest exclusive end [b] for which every term index below [b]
    keeps [6 * a - 1] inside the [int] range. *)
Definition leaf_limit : Z := 357913942.

(** The largest exclusive end [b] for which [a + b] stays inside the [int]
    range in every call of the recursion. *)
Definition split_limit : Z := 2 ^ 30.

(** The value [leaf] computes, without the outcome wrapper. *)
Definition leaf_pqt (a : Z) : pqt_t :=
  let p :=
    if a =? 0 then 1
    else - (ulong_of_int (int_sub (int_mul 6 a) 5)
            * ulong_of_int (int_sub (int_mul 2 a) 1)
            * ulong_of_int (int_sub (int_mul 6 a) 1)) in
  let q :=
    if a =? 0 then 1
    else ulong_of_int a ^ 3 * 640320 * 640320 * 640320 / 24 in
  {| P := p; Q := q; T := p * (545140134 * ulong_of_int a + 13591409) |}.

(** Left-to-right combination of the [n] terms [a, a+1, ..., a+n-1]. *)
Fixpoint chain (a : Z) (n : nat) : pqt_t :=
  match n with
  | O => leaf_pqt a
  | S O => leaf_pqt a
  | S n' => combine (chain a n') (leaf_pqt (a + Z.of_nat n'))
  end.

(** The range [[a, b)] read as a set of indices. *)
Definition covers (ab : Z * Z) (k : Z) : Prop := fst ab <= k < snd ab.

(** *** The properties under study, as predicates on the program *)

(** The recursive case on [[a, b)]: the split point is [(a + b) / 2], both
    halves return, and the call returns their combination with the operands
    paired as written. *)
Definition recursive_case (a b : Z) : Prop :=
  (forall fuel,
      binary_split (S fuel) a b =
      (l <- binary_split fuel a ((a + b) / 2) ;;
       r <- binary_split fuel ((a + b) / 2) b ;;
       Ret {| P := P l * P r;
              Q := Q l * Q r;
              T := Q r * T l + P l * T r |})) /\
  exists l r,
    returns a ((a + b) / 2) l /\
    returns ((a + b) / 2) b r /\
    returns a b {| P := P l * P r;
                   Q := Q l * Q r;
                   T := Q r * T l + P l * T r |}.

(** The values of the term of index [k]. *)
Definition leaf_spec (k : Z) (r : pqt_t) : Prop :=
  (k = 0 -> P r = 1 /\ Q r = 1) /\
  (1 <= k ->
   P r = - ((6 * k - 5) * (2 * k - 1) * (6 * k - 1)) /\
   Q r = 640320 ^ 3 * k ^ 3 / 24) /\
  T r = P r * (13591409 + 545140134 * k).

Definition leaf_as_specified (k : Z) : Prop :=
  exists r, returns k (k + 1) r /\ leaf_spec k r.

(** Splitting [[a, b)] at [m] by hand gives what the direct call gives. *)
Definition split_independent (a m b : Z) : Prop :=
  exists l r,
    returns a m l /\ returns m b r /\ returns a b (combine l r).

(** The call on [[a, b)] returns. *)
Definition terminates (a b : Z) : Prop := exists r, returns a b r.

(** [P], [Q] positive and [T] of the sign of [P]. *)
Definition positive_triple (a b : Z) : Prop :=
  exists r, returns a b r /\ 0 < P r /\ 0 < Q r /\ Z.sgn (T r) = Z.sgn (P r).

(** ** The series behind the triple *)

(** Product of the leaf values [P] (resp. [Q]) of the [n] indices from [a]. *)
Fixpoint prod_P (a : Z) (n : nat) : Z :=
  match n with
  | O => 1
  | S n' => prod_P a n' * P (leaf_pqt (a + Z.of_nat n'))
  end.

Fixpoint prod_Q (a : Z) (n : nat) : Z :=
  match n with
  | O => 1
  | S n' => prod_Q a n' * Q (leaf_pqt (a + Z.of_nat n'))
  end.

(** [f 0 + f 1 + ... + f (n - 1)]. *)
Fixpoint sum_upto (f : nat -> Z) (n : nat) : Z :=
  match n with
  | O => 0
  | S n' => sum_upto f n' + f n'
  end.

(** The summand of index [a + i] in the range of [n] indices from [a]: the
    [P] of the indices before it, its own [T], the [Q] of those after it. *)
Definition series_term (a : Z) (n i : nat) : Z :=
  prod_P a i * T (leaf_pqt (a + Z.of_nat i))
  * prod_Q (a + Z.of_nat i + 1) (n - 1 - i).

Definition series_T (a : Z) (n : nat) : Z := sum_upto (series_term a n) n.

(** ** The direct summation of versions 1.0 and 1.1

    The two earlier versions of the program ([src/unnamed/part_001]) sum
    the series term by term: each term is a quotient of two exact integers,
    divided and accumulated in floating point.  The integers, the sign and
    the distribution of the indices over the threads are modelled; the
    floating-point quotient and sum are not. *)

Module V1.

Definition mpz_fac_ui (n : Z) : Z := Z.of_nat (fact (Z.to_nat n)).

(** [unsigned long] arithmetic. *)
Definition ulong_add (x y : Z) : Z := (x + y) mod 2 ^ 64.
Definition ulong_mul (x y : Z) : Z := (x * y) mod 2 ^ 64.

(** Lines 36-38. *)
Definition fact6k (k : Z) : Z := mpz_fac_ui (ulong_of_int (int_mul 6 k)).
Definition fact3k (k : Z) : Z := mpz_fac_ui (ulong_of_int (int_mul 3 k)).
Definition factk (k : Z) : Z := mpz_fac_ui (ulong_of_int k).

(** Line 41. *)
Definition num (k : Z) : Z :=
  fact6k k * ulong_add 13591409 (ulong_mul 545140134 (ulong_of_int k)).

(** Lines 44-47. *)
Definition den (k : Z) : Z :=
  let pow := factk k ^ 3 in
  let den := fact3k k * pow in
  let pow := 640320 ^ ulong_of_int (int_mul 3 k) in
  den * pow.

(** Line 54: [if (k % 2)], with C's remainder. *)
Definition negated (k : Z) : bool := negb (Z.rem k 2 =? 0).

(** The exact numerator of the term of index [k], sign included. *)
Definition signed_num (k : Z) : Z := if negated k then - num k else num k.

(** Line 34: the indices visited by [for (k = start; k < end; k++)]. *)
Definition loop_indices (start end_ : Z) : list Z :=
  map (fun i => start + Z.of_nat i) (seq 0 (Z.to_nat (end_ - start))).

(** Line 96. *)
Definition chunk (iters num_threads : Z) : Z := int_div iters num_threads.

(** Lines 104-105. *)
Definition data_start (iters num_threads i : Z) : Z :=
  int_mul i (chunk iters num_threads).

Definition data_end (iters num_threads i : Z) : Z :=
  if i =? int_sub num_threads 1 then iters
  else int_mul (int_add i 1) (chunk iters num_threads).

(** The indices summed by thread [i], and by all the threads in the order
    of their creation. *)
Definition thread_indices (iters num_threads : Z) (i : nat) : list Z :=
  loop_indices (data_start iters num_threads (Z.of_nat i))
               (data_end iters num_threads (Z.of_nat i)).

Definition all_indices (iters num_threads : Z) : list Z :=
  List.concat (map (thread_indices iters num_threads)
              (seq 0 (Z.to_nat num_threads))).

(** The exact value of the sum of the terms of index below [n], as a
    fraction [(numerator, denominator)]: what the floating-point sum of
    lines 51-56 approximates. *)
Fixpoint exact_sum (n : nat) : Z * Z :=
  match n with
  | O => (0, 1)
  | S n' =>
      let k := Z.of_nat n' in
      (fst (exact_sum n') * den k + signed_num k * snd (exact_sum n'),
       snd (exact_sum n') * den k)
  end.

End V1.

(** ** C integers: arithmetic inside the range *)

Lemma wrap_int_small z : int_range z -> wrap_int z = z.
Proof.
  unfold int_range, int_min, int_max, wrap_int. intros H.
  rewrite Z.mod_small; lia.
Qed.

Lemma wrap_int_range z : int_range (wrap_int z).
Proof.
  unfold int_range, int_min, int_max, wrap_int.
  pose proof (Z.mod_pos_bound (z + 2 ^ 31) (2 ^ 32) ltac:(lia)). lia.
Qed.

Lemma ulong_of_int_nonneg z : 0 <= z -> int_range z -> ulong_of_int z = z.
Proof.
  unfold int_range, int_max, ulong_of_int. intros H0 H.
  apply Z.mod_small. lia.
Qed.

Ltac int_lia := unfold int_range, int_min, int_max in *; lia.

Ltac int_simpl :=
  unfold int_add, int_sub, int_mul, int_div;
  repeat match goal with
         | |- context [wrap_int ?z] => rewrite (wrap_int_small z) by int_lia
         | |- context [ulong_of_int ?z] =>
             rewrite (ulong_of_int_nonneg z) by int_lia
         end.

Lemma int_sub_small x y : int_range (x - y) -> int_sub x y = x - y.
Proof. apply wrap_int_small. Qed.

Lemma midpoint_floor a b :
  0 <= a + b <= int_max -> midpoint a b = (a + b) / 2.
Proof.
  intros H. unfold midpoint, int_add, int_div.
  assert (Hab: int_range (a + b)) by (unfold int_range, int_min, int_max in *; lia).
  rewrite (wrap_int_small _ Hab).
  rewrite Z.quot_div_nonneg by lia.
  apply wrap_int_small.
  unfold int_range, int_min, int_max in *.
  pose proof (Z.div_pos (a + b) 2 ltac:(lia) ltac:(lia)).
  assert ((a + b) / 2 <= a + b) by (apply Z.div_le_upper_bound; lia).
  lia.
Qed.

(** ** The leaf *)

Lemma divexact_24 u :
  mpz_divexact_ui (u ^ 3 * 640320 * 640320 * 640320) 24
  = Ret (u ^ 3 * 640320 * 640320 * 640320 / 24).
Proof.
  unfold mpz_divexact_ui.
  replace (u ^ 3 * 640320 * 640320 * 640320)
    with (u ^ 3 * 10939058860032000 * 24) by ring.
  rewrite Z.mod_mul by lia. reflexivity.
Qed.

Lemma leaf_returns a : leaf a = Ret (leaf_pqt a).
Proof.
  unfold leaf, leaf_pqt. destruct (a =? 0) eqn:E; cbn [bind fst snd].
  - do 2 f_equal; try ring.
  - rewrite divexact_24. cbn [bind fst snd]. do 2 f_equal; try ring.
Qed.

Lemma leaf_pqt_exact k :
  1 <= k < leaf_limit ->
  leaf_pqt k =
  {| P := - ((6 * k - 5) * (2 * k - 1) * (6 * k - 1));
     Q := 640320 ^ 3 * k ^ 3 / 24;
     T := - ((6 * k - 5) * (2 * k - 1) * (6 * k - 1))
          * (13591409 + 545140134 * k) |}.
Proof.
  unfold leaf_limit. intros H. unfold leaf_pqt.
  replace (k =? 0) with false by (symmetry; apply Z.eqb_neq; lia).
  int_simpl.
  f_equal; try ring.
  f_equal; ring.
Qed.

Example binary_split_0_2 :
  binary_split 2 0 2
  = Ret {| P := -5; Q := 10939058860032000; T := 148677223041765871430285 |}.
Proof. reflexivity. Qed.

Lemma leaf_pqt_zero : leaf_pqt 0 = {| P := 1; Q := 1; T := 13591409 |}.
Proof. reflexivity. Qed.

(** ** The combination rule *)

Lemma combine_assoc x y z :
  combine (combine x y) z = combine x (combine y z).
Proof.
  unfold combine; cbn [P Q T]. f_equal; ring.
Qed.

Lemma aggregate_step_combine final d : aggregate_step final d = combine final d.
Proof.
  unfold aggregate_step, combine. f_equal. ring.
Qed.

Lemma chain_succ a n :
  chain a (S (S n)) = combine (chain a (S n)) (leaf_pqt (a + Z.of_nat (S n))).
Proof. reflexivity. Qed.

Lemma chain_app a n m :
  chain a (S n + S m) =
  combine (chain a (S n)) (chain (a + Z.of_nat (S n)) (S m)).
Proof.
  induction m as [|m IH].
  - replace (S n + 1)%nat with (S (S n)) by lia. apply chain_succ.
  - replace (S n + S (S m))%nat with (S (S (n + S m))) by lia.
    rewrite chain_succ.
    replace (S (n + S m)) with (S n + S m)%nat by lia.
    rewrite IH, (chain_succ _ m), combine_assoc.
    do 3 f_equal. lia.
Qed.

(** [chain] over an interval split at an inner point. *)
Lemma chain_split a m b :
  a < m < b ->
  chain a (Z.to_nat (b - a)) =
  combine (chain a (Z.to_nat (m - a))) (chain m (Z.to_nat (b - m))).
Proof.
  intros H.
  destruct (Z.to_nat (m - a)) as [|n] eqn:En; [lia|].
  destruct (Z.to_nat (b - m)) as [|k] eqn:Ek; [lia|].
  replace (Z.to_nat (b - a)) with (S n + S k)%nat by lia.
  rewrite chain_app. do 2 f_equal. lia.
Qed.

(** ** binary_split on ranges inside the [int] arithmetic *)

Lemma midpoint_inside a b :
  0 <= a -> 2 <= b - a -> b <= split_limit ->
  midpoint a b = (a + b) / 2 /\ a < (a + b) / 2 < b.
Proof.
  unfold split_limit. intros Ha Hw Hb. split.
  - apply midpoint_floor. unfold int_max. lia.
  - pose proof (Z.div_mod (a + b) 2 ltac:(lia)).
    pose proof (Z.mod_pos_bound (a + b) 2 ltac:(lia)). lia.
Qed.

Lemma binary_split_chain fuel : forall a b,
  0 <= a < b -> b <= split_limit ->
  (Z.to_nat (b - a) <= fuel)%nat ->
  binary_split fuel a b = Ret (chain a (Z.to_nat (b - a))).
Proof.
  induction fuel as [|fuel IH]; intros a b Hab Hb Hf; [lia|].
  cbn [binary_split].
  rewrite int_sub_small by (unfold split_limit in Hb; int_lia).
  destruct (b - a =? 1) eqn:E.
  - apply Z.eqb_eq in E. rewrite E. apply leaf_returns.
  - apply Z.eqb_neq in E.
    destruct (midpoint_inside a b) as [Hm Hin]; [lia | lia | assumption |].
    cbv zeta. rewrite Hm.
    rewrite (IH a ((a + b) / 2)) by lia.
    rewrite (IH ((a + b) / 2) b) by lia.
    cbn [bind]. f_equal. symmetry. apply chain_split. assumption.
Qed.

Lemma binary_split_mono fuel : forall fuel' a b r,
  binary_split fuel a b = Ret r -> (fuel <= fuel')%nat ->
  binary_split fuel' a b = Ret r.
Proof.
  induction fuel as [|fuel IH]; intros fuel' a b r H Hle; [discriminate|].
  destruct fuel' as [|fuel']; [lia|].
  cbn [binary_split] in *.
  destruct (int_sub b a =? 1); [assumption|].
  cbv zeta in *.
  destruct (binary_split fuel a (midpoint a b)) as [l| |] eqn:El;
    cbn [bind] in H; try discriminate.
  destruct (binary_split fuel (midpoint a b) b) as [rr| |] eqn:Er;
    cbn [bind] in H; try discriminate.
  rewrite (IH fuel' _ _ _ El), (IH fuel' _ _ _ Er) by lia.
  exact H.
Qed.

Lemma returns_unique a b r r' : returns a b r -> returns a b r' -> r = r'.
Proof.
  intros [f Hf] [f' Hf'].
  apply (binary_split_mono f (Nat.max f f')) in Hf; [|lia].
  apply (binary_split_mono f' (Nat.max f f')) in Hf'; [|lia].
  congruence.
Qed.

Lemma returns_chain a b :
  0 <= a < b -> b <= split_limit -> returns a b (chain a (Z.to_nat (b - a))).
Proof.
  intros Hab Hb. exists (Z.to_nat (b - a)).
  apply binary_split_chain; auto.
Qed.

(** ** Ranges on which the recursion does not return *)

Lemma midpoint_empty a b :
  - 2 ^ 30 <= b <= a -> a <= 2 ^ 30 -> a + b <= int_max ->
  b <= midpoint a b <= a /\ a + midpoint a b <= int_max.
Proof.
  intros Hb Ha Hs. unfold midpoint, int_add, int_div.
  rewrite (wrap_int_small (a + b)) by int_lia.
  assert (b <= Z.quot (a + b) 2 <= a /\ a + Z.quot (a + b) 2 <= int_max).
  { unfold int_max in *. Z.to_euclidean_division_equations. lia. }
  rewrite wrap_int_small by int_lia. assumption.
Qed.

Lemma binary_split_empty fuel : forall a b,
  - 2 ^ 30 <= b <= a -> a <= 2 ^ 30 -> a + b <= int_max ->
  binary_split fuel a b = OutOfFuel.
Proof.
  induction fuel as [|fuel IH]; intros a b Hb Ha Hs; [reflexivity|].
  cbn [binary_split].
  rewrite int_sub_small by int_lia.
  replace (b - a =? 1) with false by (symmetry; apply Z.eqb_neq; lia).
  cbv zeta.
  pose proof (midpoint_empty a b Hb Ha Hs).
  rewrite IH by lia. reflexivity.
Qed.

(** ** Signs and magnitudes along a chain of terms *)

Lemma leaf_pqt_closed k :
  1 <= k < leaf_limit ->
  leaf_pqt k =
  {| P := - ((6 * k - 5) * (2 * k - 1) * (6 * k - 1));
     Q := 10939058860032000 * k ^ 3;
     T := - ((6 * k - 5) * (2 * k - 1) * (6 * k - 1))
          * (545140134 * k + 13591409) |}.
Proof.
  intros H. rewrite leaf_pqt_exact by assumption. f_equal.
  - replace (640320 ^ 3 * k ^ 3) with (10939058860032000 * k ^ 3 * 24) by ring.
    apply Z.div_mul. lia.
  - ring.
Qed.

Lemma term_magnitude k :
  1 <= k ->
  0 < (6 * k - 5) * (2 * k - 1) * (6 * k - 1) /\
  (6 * k - 5) * (2 * k - 1) * (6 * k - 1)
  * (545140134 * k + 13591409 + k + 1)
  <= 10939058860032000 * k ^ 3 * k.
Proof.
  intros Hk.
  assert (H0: 0 < k ^ 3) by (apply Z.pow_pos_nonneg; lia).
  assert (H1: (6 * k - 5) * (2 * k - 1) * (6 * k - 1) <= 72 * k ^ 3).
  { replace ((6 * k - 5) * (2 * k - 1) * (6 * k - 1))
      with (72 * k ^ 3 - (108 * k * k - 46 * k + 5)) by ring. nia. }
  assert (H2: 0 < (6 * k - 5) * (2 * k - 1) * (6 * k - 1)).
  { apply Z.mul_pos_pos; [apply Z.mul_pos_pos|]; lia. }
  split; [assumption|].
  assert (H3: 545140134 * k + 13591409 + k + 1 <= 558731545 * k) by lia.
  transitivity (72 * k ^ 3 * (558731545 * k)).
  - apply Z.mul_le_mono_nonneg; lia.
  - nia.
Qed.

Lemma combine_T_bound Px Tx k B c Qy :
  Tx + Z.abs Px * k <= 0 -> 0 < B -> 0 <= c -> 0 < Qy ->
  B * (c + k + 1) <= Qy * k -> 0 <= k ->
  Qy * Tx + Px * (- B * c) + Z.abs (Px * - B) * (k + 1) <= 0.
Proof.
  intros HT HB Hc HQ Hk Hk0.
  rewrite Z.abs_mul. replace (Z.abs (- B)) with B by lia.
  assert (H1: Qy * (Tx + Z.abs Px * k) <= 0) by nia.
  assert (H2: Px * (- B * c) <= Z.abs Px * (B * c)).
  { assert (0 <= B * c) by nia. nia. }
  assert (H3: Z.abs Px * (B * (c + k + 1) - Qy * k) <= 0).
  { assert (0 <= Z.abs Px) by lia. nia. }
  nia.
Qed.

(** [P] alternates with the number of terms, [Q] is positive, and [T] is
    dominated by its first term: [T <= - |P| * b] at the exclusive end [b]. *)
Lemma chain_signs a n :
  1 <= a -> a + Z.of_nat (S n) <= leaf_limit ->
  0 < Q (chain a (S n)) /\
  (if Nat.even (S n) then 0 < P (chain a (S n)) else P (chain a (S n)) < 0) /\
  T (chain a (S n)) + Z.abs (P (chain a (S n))) * (a + Z.of_nat (S n)) <= 0.
Proof.
  intros Ha. induction n as [|n IH]; intros Hb.
  - cbn [chain Nat.even]. rewrite leaf_pqt_closed by lia. cbn [P Q T].
    destruct (term_magnitude a Ha) as [HB _].
    assert (0 < a ^ 3) by (apply Z.pow_pos_nonneg; lia).
    repeat split; try lia.
    rewrite Z.abs_neq by lia. nia.
  - destruct IH as (HQ & HP & HT); [lia|].
    rewrite chain_succ.
    set (k := a + Z.of_nat (S n)) in *.
    assert (Hk: 1 <= k < leaf_limit) by lia.
    rewrite (leaf_pqt_closed k Hk).
    destruct (chain a (S n)) as [Px Qx Tx]. cbn [P Q T] in *.
    destruct (term_magnitude k) as [HB Hmag]; [lia|].
    assert (0 < k ^ 3) by (apply Z.pow_pos_nonneg; lia).
    unfold combine; cbn [P Q T].
    split; [nia|]. split.
    + change (Nat.even (S (S n))) with (Nat.even n).
      rewrite Nat.even_succ, <- Nat.negb_even in HP.
      destruct (Nat.even n); cbn [negb] in HP; nia.
    + replace (a + Z.of_nat (S (S n))) with (k + 1) by lia.
      apply combine_T_bound; lia.
Qed.

(** ** The ranges handed to the workers *)

Section Ranges.

Variables N W : Z.
Hypothesis HN : 0 <= N <= int_max.
Hypothesis HW : 1 <= W <= int_max.

Lemma chunk_div : chunk N W = N / W.
Proof.
  unfold chunk, int_div. rewrite Z.quot_div_nonneg by lia.
  apply wrap_int_small.
  pose proof (Z.div_pos N W ltac:(lia) ltac:(lia)).
  assert (N / W <= N) by (apply Z.div_le_upper_bound; nia).
  int_lia.
Qed.

Lemma chunk_bounds : 0 <= N / W /\ W * (N / W) <= N.
Proof.
  split.
  - apply Z.div_pos; lia.
  - apply Z.mul_div_le. lia.
Qed.

Lemma data_a_eq i : 0 <= i < W -> data_a N W i = i * (N / W).
Proof.
  intros Hi. unfold data_a. rewrite chunk_div.
  destruct chunk_bounds as [H0 H1].
  unfold int_mul. apply wrap_int_small.
  assert (0 <= i * (N / W)) by nia.
  assert (i * (N / W) <= W * (N / W)) by nia.
  int_lia.
Qed.

Lemma data_b_eq i :
  0 <= i < W ->
  data_b N W i = if i =? W - 1 then N else (i + 1) * (N / W).
Proof.
  intros Hi. unfold data_b. rewrite chunk_div.
  destruct chunk_bounds as [H0 H1].
  rewrite (int_sub_small W 1) by int_lia.
  destruct (i =? W - 1) eqn:E; [reflexivity|].
  apply Z.eqb_neq in E.
  unfold int_add. rewrite (wrap_int_small (i + 1)) by int_lia.
  unfold int_mul. apply wrap_int_small.
  assert (0 <= (i + 1) * (N / W)) by nia.
  assert ((i + 1) * (N / W) <= W * (N / W)) by nia.
  int_lia.
Qed.

(** The ranges are laid end to end from [0] to [N]. *)
Lemma ranges_start : data_a N W 0 = 0.
Proof. rewrite data_a_eq by lia. lia. Qed.

Lemma ranges_adjacent i :
  0 <= i < W - 1 -> data_b N W i = data_a N W (i + 1).
Proof.
  intros Hi. rewrite data_b_eq, data_a_eq by lia.
  replace (i =? W - 1) with false by (symmetry; apply Z.eqb_neq; lia).
  reflexivity.
Qed.

Lemma ranges_end : data_b N W (W - 1) = N.
Proof. rewrite data_b_eq by lia. rewrite Z.eqb_refl. reflexivity. Qed.

Lemma ranges_ordered i : 0 <= i < W -> data_a N W i <= data_b N W i.
Proof.
  intros Hi. rewrite data_a_eq, data_b_eq by lia.
  destruct chunk_bounds as [H0 H1].
  destruct (i =? W - 1) eqn:E.
  - apply Z.eqb_eq in E. subst i. nia.
  - nia.
Qed.

(** With at most one worker per term every range is non-empty. *)
Lemma ranges_nonempty i :
  W <= N -> 0 <= i < W -> data_a N W i < data_b N W i.
Proof.
  intros HWN Hi. rewrite data_a_eq, data_b_eq by lia.
  destruct chunk_bounds as [H0 H1].
  assert (1 <= N / W) by (apply Z.div_le_lower_bound; lia).
  destruct (i =? W - 1) eqn:E.
  - apply Z.eqb_eq in E. subst i. nia.
  - nia.
Qed.

(** With more workers than terms the first range is empty. *)
Lemma ranges_first_empty :
  N < W -> worker_range N W 0 = (0, 0).
Proof.
  intros HWN. unfold worker_range. cbn [Z.of_nat].
  rewrite data_a_eq, data_b_eq by lia.
  rewrite (Z.div_small N W) by lia.
  destruct (0 =? W - 1) eqn:E; [|reflexivity].
  apply Z.eqb_eq in E. f_equal. lia.
Qed.

(** Every index below [N] lies in the range of some worker ... *)
Lemma worker_ranges_cover k :
  0 <= k < N ->
  exists ab, In ab (worker_ranges N W) /\ covers ab k.
Proof.
  intros Hk. destruct chunk_bounds as [H0 H1].
  assert (Hfind : exists i, 0 <= i < W /\
                            data_a N W i <= k < data_b N W i).
  { destruct (Z_lt_le_dec k ((W - 1) * (N / W))) as [Hlt|Hge].
    - assert (Hc : 0 < N / W) by nia.
      exists (k / (N / W)).
      pose proof (Z.div_mod k (N / W) ltac:(lia)).
      pose proof (Z.mod_pos_bound k (N / W) Hc).
      assert (0 <= k / (N / W)) by (apply Z.div_pos; lia).
      assert (k / (N / W) < W - 1) by nia.
      rewrite data_a_eq, data_b_eq by lia.
      replace (k / (N / W) =? W - 1) with false
        by (symmetry; apply Z.eqb_neq; lia).
      nia.
    - exists (W - 1). rewrite data_a_eq, data_b_eq by lia.
      rewrite Z.eqb_refl. lia. }
  destruct Hfind as (i & Hi & Hin).
  exists (worker_range N W (Z.to_nat i)). split.
  - unfold worker_ranges. apply in_map, in_seq. lia.
  - unfold covers, worker_range. cbn [fst snd].
    rewrite Z2Nat.id by lia. exact Hin.
Qed.

(** ... and in the range of one worker only. *)
Lemma worker_ranges_disjoint i j k :
  0 <= i < W -> 0 <= j < W ->
  data_a N W i <= k < data_b N W i ->
  data_a N W j <= k < data_b N W j ->
  i = j.
Proof.
  assert (Hlt : forall x y, 0 <= x -> x < y -> y < W ->
                            data_b N W x <= data_a N W y).
  { intros x y Hx Hxy Hy. rewrite data_a_eq, data_b_eq by lia.
    destruct chunk_bounds as [H0 H1].
    replace (x =? W - 1) with false by (symmetry; apply Z.eqb_neq; lia).
    nia. }
  intros Hi Hj Hki Hkj.
  destruct (Z.lt_trichotomy i j) as [H|[H|H]]; [|assumption|].
  - pose proof (Hlt i j ltac:(lia) H ltac:(lia)). lia.
  - pose proof (Hlt j i ltac:(lia) H ltac:(lia)). lia.
Qed.

End Ranges.

(** ** Aggregation of the workers' results *)

Section Aggregation.

Variables N W : Z.
Hypothesis HW : 1 <= W <= N.
Hypothesis HN : N <= split_limit.

Let HN' : 0 <= N <= int_max.
Proof. unfold split_limit in HN. int_lia. Qed.

Let HW' : 1 <= W <= int_max.
Proof. unfold split_limit in HN. int_lia. Qed.

Lemma worker_returns fuel i :
  0 <= i < W -> (Z.to_nat N <= fuel)%nat ->
  binary_split fuel (data_a N W i) (data_b N W i)
  = Ret (chain (data_a N W i) (Z.to_nat (data_b N W i - data_a N W i))).
Proof.
  intros Hi Hf.
  pose proof (ranges_nonempty N W HN' HW' i ltac:(lia) Hi) as Hlt.
  assert (0 <= data_a N W i).
  { rewrite data_a_eq by (assumption || lia).
    destruct (chunk_bounds N W HN' HW'). nia. }
  assert (data_b N W i <= N).
  { rewrite data_b_eq by (assumption || lia).
    destruct (chunk_bounds N W HN' HW').
    destruct (i =? W - 1); nia. }
  apply binary_split_chain; lia.
Qed.

Lemma aggregate_chain fuel :
  (Z.to_nat N <= fuel)%nat ->
  forall k j : nat,
  (1 <= j)%nat -> (j + k)%nat = Z.to_nat W ->
  aggregate fuel (chain 0 (Z.to_nat (data_b N W (Z.of_nat j - 1))))
            (map (worker_range N W) (seq j k))
  = Ret (chain 0 (Z.to_nat N)).
Proof.
  intros Hf. induction k as [|k IH]; intros j Hj Hjk.
  - cbn [seq map aggregate].
    replace (Z.of_nat j - 1) with (W - 1) by lia.
    rewrite ranges_end by assumption. reflexivity.
  - cbn [seq map aggregate]. unfold compute_bs_thread, worker_range.
    cbn [fst snd].
    rewrite worker_returns by lia. cbn [bind].
    rewrite aggregate_step_combine.
    pose proof (ranges_adjacent N W HN' HW' (Z.of_nat j - 1) ltac:(lia)) as Hadj.
    replace (Z.of_nat j - 1 + 1) with (Z.of_nat j) in Hadj by lia.
    pose proof (ranges_nonempty N W HN' HW' (Z.of_nat j) ltac:(lia) ltac:(lia)).
    assert (0 < data_a N W (Z.of_nat j)).
    { rewrite data_a_eq by (assumption || lia).
      assert (1 <= N / W) by (apply Z.div_le_lower_bound; lia). nia. }
    rewrite Hadj.
    replace (Z.to_nat (data_a N W (Z.of_nat j)))
      with (Z.to_nat (data_a N W (Z.of_nat j) - 0)) by (f_equal; lia).
    rewrite <- (chain_split 0 (data_a N W (Z.of_nat j))
                  (data_b N W (Z.of_nat j))) by lia.
    rewrite Z.sub_0_r.
    specialize (IH (S j) ltac:(lia) ltac:(lia)).
    replace (Z.of_nat (S j) - 1) with (Z.of_nat j) in IH by lia.
    exact IH.
Qed.

Lemma parallel_split_chain fuel :
  (Z.to_nat N <= fuel)%nat ->
  parallel_split fuel N W = Ret (chain 0 (Z.to_nat N)).
Proof.
  intros Hf. unfold parallel_split, compute_bs_thread, worker_range.
  cbn [fst snd Z.of_nat].
  rewrite worker_returns by lia. cbn [bind].
  rewrite ranges_start by assumption. rewrite Z.sub_0_r.
  apply (aggregate_chain fuel Hf (Z.to_nat W - 1) 1); lia.
Qed.

(** The fold over the workers' triples is the triple of the whole range. *)
Lemma parallel_split_agrees fuel :
  (Z.to_nat N <= fuel)%nat ->
  parallel_split fuel N W = binary_split fuel 0 N.
Proof.
  intros Hf. rewrite parallel_split_chain by assumption.
  rewrite binary_split_chain by lia.
  rewrite Z.sub_0_r. reflexivity.
Qed.

End Aggregation.

(** ** No call ends in the misuse of [mpz_divexact_ui] *)

Lemma binary_split_no_misuse fuel : forall a b, binary_split fuel a b <> Misuse.
Proof.
  induction fuel as [|fuel IH]; intros a b; cbn [binary_split]; [discriminate|].
  destruct (int_sub b a =? 1).
  - rewrite leaf_returns. discriminate.
  - cbv zeta.
    destruct (binary_split fuel a (midpoint a b)) as [l| |] eqn:El;
      cbn [bind]; try discriminate; [|exact (fun _ => IH _ _ El)].
    destruct (binary_split fuel (midpoint a b) b) as [r| |] eqn:Er;
      cbn [bind]; try discriminate. exact (fun _ => IH _ _ Er).
Qed.

(** ** A range whose midpoint leaves the [int] range *)

Example midpoint_past_int_max :
  midpoint 1073741824 1073741826 = -1073741823 /\
  (1073741824 + 1073741826) / 2 = 1073741825 /\
  int_max < 1073741824 + 1073741826.
Proof. repeat split. Qed.

Example leaf_factor_past_int_max :
  int_sub (int_mul 6 357913942) 1 = -2147483645 /\
  ulong_of_int (int_sub (int_mul 6 357913942) 1) = 18446744071562067971 /\
  int_max < 6 * 357913942 - 1.
Proof. repeat split. Qed.

Lemma overflow_range_diverges fuel :
  binary_split fuel 1073741824 1073741826 = OutOfFuel.
Proof.
  destruct fuel as [|fuel]; [reflexivity|].
  cbn [binary_split].
  change (int_sub 1073741826 1073741824 =? 1) with false.
  cbv zeta. change (midpoint 1073741824 1073741826) with (-1073741823).
  rewrite binary_split_empty by (unfold int_max; lia).
  reflexivity.
Qed.

Lemma overflow_range_no_result r : ~ returns 1073741824 1073741826 r.
Proof.
  intros [fuel H]. rewrite overflow_range_diverges in H. discriminate.
Qed.

(** * The recursion *)

(** C1, as written, fails where [a + b] exceeds [INT_MAX]: on
    [[2^30, 2^30 + 2)] the program's [m] is negative and the call does not
    return. *)
Lemma C1_midpoint_overflow : ~ recursive_case 1073741824 1073741826.
Proof.
  intros [_ (l & r & _ & _ & H)].
  exact (overflow_range_no_result _ H).
Qed.

(** C1 (amended): for every range [[a, b)] with [0 <= a], [b - a >= 2] and
    [b <= 2^30], [binary_split] takes [m = floor((a+b)/2)], computes
    [left = split(a, m)] and [right = split(m, b)], both of which return, and
    returns [P = left.P * right.P], [Q = left.Q * right.Q],
    [T = right.Q * left.T + left.P * right.T]. *)
Theorem C1_recursive_case a b :
  0 <= a -> 2 <= b - a -> b <= split_limit -> recursive_case a b.
Proof.
  intros Ha Hw Hb.
  destruct (midpoint_inside a b Ha Hw Hb) as [Hm Hin].
  split.
  - intros fuel. cbn [binary_split].
    rewrite int_sub_small by (unfold split_limit in Hb; int_lia).
    replace (b - a =? 1) with false by (symmetry; apply Z.eqb_neq; lia).
    cbv zeta. rewrite Hm. reflexivity.
  - exists (chain a (Z.to_nat ((a + b) / 2 - a))),
           (chain ((a + b) / 2) (Z.to_nat (b - (a + b) / 2))).
    split; [apply returns_chain; lia|].
    split; [apply returns_chain; lia|].
    pose proof (returns_chain a b ltac:(lia) Hb) as H.
    rewrite (chain_split a ((a + b) / 2) b Hin) in H.
    exact H.
Qed.

Lemma C1_recursive_case_witness :
  0 <= 0 /\ 2 <= 5 - 0 /\ 5 <= split_limit /\ recursive_case 0 5.
Proof.
  assert (H0 : 0 <= 0) by lia.
  assert (H1 : 2 <= 5 - 0) by lia.
  assert (H2 : 5 <= split_limit) by (unfold split_limit; lia).
  exact (conj H0 (conj H1 (conj H2 (C1_recursive_case 0 5 H0 H1 H2)))).
Defined.

(** C2, as written, fails where [6 * k - 1] exceeds [INT_MAX]: at
    [k = 357913942] the factor handed to GMP is not [6k - 1]. *)
Lemma C2_leaf_overflow : ~ leaf_as_specified 357913942.
Proof.
  intros (r & Hr & _ & HP & _).
  assert (Hl : returns 357913942 (357913942 + 1) (leaf_pqt 357913942)).
  { exists 1%nat. cbn [binary_split].
    change (int_sub (357913942 + 1) 357913942 =? 1) with true.
    cbv iota. apply leaf_returns. }
  rewrite (returns_unique _ _ _ _ Hr Hl) in HP.
  destruct HP as [HP _]; [lia|].
  vm_compute in HP. discriminate.
Qed.

(** C2 (amended): for every index [0 <= k < 357913942] the call on
    [[k, k+1)] returns the leaf triple: [P = 1], [Q = 1] if [k = 0];
    [P = -(6k-5)(2k-1)(6k-1)] and [Q = 640320^3 * k^3 / 24] if [k >= 1];
    and [T = P * (13591409 + 545140134 * k)] in both cases. *)
Theorem C2_leaf_values k :
  0 <= k -> k < leaf_limit ->
  exists r,
    leaf k = Ret r /\
    (forall fuel, binary_split (S fuel) k (k + 1) = Ret r) /\
    leaf_spec k r.
Proof.
  intros H0 Hk. exists (leaf_pqt k).
  split; [apply leaf_returns|]. split.
  - intros fuel. cbn [binary_split].
    rewrite int_sub_small by (unfold leaf_limit in Hk; int_lia).
    replace (k + 1 - k =? 1) with true by (symmetry; apply Z.eqb_eq; lia).
    apply leaf_returns.
  - destruct (Z.eq_dec k 0) as [->|Hne].
    + rewrite leaf_pqt_zero. unfold leaf_spec; cbn [P Q T].
      repeat split; lia.
    + rewrite leaf_pqt_exact by lia. unfold leaf_spec; cbn [P Q T].
      repeat split; lia.
Qed.

Lemma C2_leaf_values_witness :
  0 <= 2 /\ 2 < leaf_limit /\
  exists r,
    leaf 2 = Ret r /\
    (forall fuel, binary_split (S fuel) 2 (2 + 1) = Ret r) /\
    leaf_spec 2 r.
Proof.
  assert (H0 : 0 <= 2) by lia.
  assert (H1 : 2 < leaf_limit) by (unfold leaf_limit; lia).
  exact (conj H0 (conj H1 (C2_leaf_values 2 H0 H1))).
Defined.

(** C3, as written, fails where [a + b] exceeds [INT_MAX]: the two halves
    of [[2^30, 2^30 + 2)] are leaves and return, the direct call does not. *)
Lemma C3_split_overflow :
  ~ split_independent 1073741824 1073741825 1073741826.
Proof.
  intros (l & r & _ & _ & H).
  exact (overflow_range_no_result _ H).
Qed.

(** C3 (amended): for all [0 <= a < m < b <= 2^30], the call on [[a, b)]
    returns exactly the combination of what the calls on [[a, m)] and
    [[m, b)] return: the triple does not depend on the split point. *)
Theorem C3_split_point_independent a m b :
  0 <= a -> a < m -> m < b -> b <= split_limit ->
  split_independent a m b.
Proof.
  intros Ha Ham Hmb Hb.
  exists (chain a (Z.to_nat (m - a))), (chain m (Z.to_nat (b - m))).
  split; [apply returns_chain; lia|].
  split; [apply returns_chain; lia|].
  rewrite <- chain_split by lia.
  apply returns_chain; lia.
Qed.

Lemma C3_split_point_independent_witness :
  0 <= 1 /\ 1 < 2 /\ 2 < 7 /\ 7 <= split_limit /\ split_independent 1 2 7.
Proof.
  assert (H0 : 0 <= 1) by lia.
  assert (H1 : 1 < 2) by lia.
  assert (H2 : 2 < 7) by lia.
  assert (H3 : 7 <= split_limit) by (unfold split_limit; lia).
  exact (conj H0 (conj H1 (conj H2 (conj H3
           (C3_split_point_independent 1 2 7 H0 H1 H2 H3))))).
Defined.

(** C5, as written, fails where [a + b] exceeds [INT_MAX]: the call on
    [[2^30, 2^30 + 2)] does not return. *)
Lemma C5_no_return_on_overflow : ~ terminates 1073741824 1073741826.
Proof.
  intros [r H]. exact (overflow_range_no_result _ H).
Qed.

(** C5 (amended): for every range with [0 <= a < b <= 2^30] the call
    returns (a call stack of depth [b - a] is enough), both recursive calls
    are on strictly narrower non-empty ranges, and no call ends in an error
    state. *)
Theorem C5_total a b :
  0 <= a -> a < b -> b <= split_limit ->
  (exists r, forall fuel,
      (Z.to_nat (b - a) <= fuel)%nat -> binary_split fuel a b = Ret r) /\
  (2 <= b - a ->
   0 < midpoint a b - a < b - a /\ 0 < b - midpoint a b < b - a) /\
  (forall fuel, binary_split fuel a b <> Misuse).
Proof.
  intros Ha Hab Hb. split; [|split].
  - exists (chain a (Z.to_nat (b - a))). intros fuel Hf.
    apply binary_split_chain; auto.
  - intros Hw. destruct (midpoint_inside a b Ha Hw Hb) as [-> Hin]. lia.
  - intros fuel. apply binary_split_no_misuse.
Qed.

Lemma C5_total_witness :
  0 <= 3 /\ 3 < 10 /\ 10 <= split_limit /\
  (exists r, forall fuel,
      (Z.to_nat (10 - 3) <= fuel)%nat -> binary_split fuel 3 10 = Ret r) /\
  (2 <= 10 - 3 ->
   0 < midpoint 3 10 - 3 < 10 - 3 /\ 0 < 10 - midpoint 3 10 < 10 - 3) /\
  (forall fuel, binary_split fuel 3 10 <> Misuse).
Proof.
  assert (H0 : 0 <= 3) by lia.
  assert (H1 : 3 < 10) by lia.
  assert (H2 : 10 <= split_limit) by (unfold split_limit; lia).
  exact (conj H0 (conj H1 (conj H2 (C5_total 3 10 H0 H1 H2)))).
Defined.

(** * The exact division *)

(** C7: for every [k >= 1], [640320^3 * k^3] is a multiple of [24]; the
    division of the leaf is exact, gives [640320^3 * k^3 / 24] without a
    remainder, and neither the leaf nor any call of [binary_split] ends in
    the misuse of [mpz_divexact_ui]. *)
Theorem C7_divexact_24 k :
  1 <= k ->
  (640320 ^ 3 * k ^ 3) mod 24 = 0 /\
  mpz_divexact_ui (k ^ 3 * 640320 * 640320 * 640320) 24
  = Ret (640320 ^ 3 * k ^ 3 / 24) /\
  24 * (640320 ^ 3 * k ^ 3 / 24) = 640320 ^ 3 * k ^ 3 /\
  leaf k <> Misuse /\
  (forall fuel a b, binary_split fuel a b <> Misuse).
Proof.
  intros Hk.
  assert (Hmod : (640320 ^ 3 * k ^ 3) mod 24 = 0).
  { replace (640320 ^ 3 * k ^ 3) with (10939058860032000 * k ^ 3 * 24) by ring.
    apply Z.mod_mul. lia. }
  split; [exact Hmod|]. split; [|split; [|split]].
  - rewrite divexact_24. do 2 f_equal. ring.
  - pose proof (Z.div_mod (640320 ^ 3 * k ^ 3) 24 ltac:(lia)). lia.
  - rewrite leaf_returns. discriminate.
  - intros fuel a b. apply binary_split_no_misuse.
Qed.

Lemma C7_divexact_24_witness :
  1 <= 3 /\
  (640320 ^ 3 * 3 ^ 3) mod 24 = 0 /\
  mpz_divexact_ui (3 ^ 3 * 640320 * 640320 * 640320) 24
  = Ret (640320 ^ 3 * 3 ^ 3 / 24) /\
  24 * (640320 ^ 3 * 3 ^ 3 / 24) = 640320 ^ 3 * 3 ^ 3 /\
  leaf 3 <> Misuse /\
  (forall fuel a b, binary_split fuel a b <> Misuse).
Proof.
  assert (H : 1 <= 3) by lia.
  exact (conj H (C7_divexact_24 3 H)).
Defined.

(** * Signs *)

Lemma even_of_nat n : Z.even (Z.of_nat n) = Nat.even n.
Proof.
  induction n as [|n IH]; [reflexivity|].
  rewrite Nat2Z.inj_succ, Z.even_succ, Nat.even_succ.
  rewrite <- Z.negb_even, <- Nat.negb_even, IH. reflexivity.
Qed.

Lemma returns_leaf k : int_range k -> int_range (k + 1) ->
  returns k (k + 1) (leaf_pqt k).
Proof.
  intros Hk Hk1. exists 1%nat. cbn [binary_split].
  rewrite int_sub_small by int_lia.
  replace (k + 1 - k =? 1) with true by (symmetry; apply Z.eqb_eq; lia).
  apply leaf_returns.
Qed.

(** C8, as written, fails on [[1, 2)], where [P = -5], and on [[1, 3)],
    where [P = 1155] is positive and [T] is negative. *)
Lemma C8_sign_counterexample : ~ (positive_triple 1 2 \/ positive_triple 1 3).
Proof.
  intros [(r & Hr & HP & _) | (r & Hr & _ & _ & HS)].
  - assert (Hl : returns 1 2 (leaf_pqt 1))
      by (apply (returns_leaf 1); int_lia).
    rewrite (returns_unique _ _ _ _ Hr Hl) in HP.
    vm_compute in HP. discriminate.
  - assert (Hl : returns 1 3 (chain 1 2)).
    { apply (returns_chain 1 3); unfold split_limit; lia. }
    rewrite (returns_unique _ _ _ _ Hr Hl) in HS.
    vm_compute in HS. discriminate.
Qed.

(** C8 (amended): for every range [[a, b)] with [0 < a < b <= 357913942]
    the returned triple has [Q > 0]; [P] is positive when the width [b - a]
    is even and negative when it is odd; [T] is negative; so [T] has the
    sign of [P] exactly on the ranges of odd width, the leaves among them. *)
Theorem C8_signs a b :
  0 < a -> a < b -> b <= leaf_limit ->
  exists r,
    returns a b r /\
    0 < Q r /\
    (if Z.even (b - a) then 0 < P r else P r < 0) /\
    T r < 0 /\
    (Z.sgn (T r) = Z.sgn (P r) <-> Z.odd (b - a) = true).
Proof.
  intros Ha Hab Hb.
  exists (chain a (Z.to_nat (b - a))).
  split; [apply returns_chain; unfold leaf_limit, split_limit in *; lia|].
  destruct (Z.to_nat (b - a)) as [|n] eqn:En; [lia|].
  destruct (chain_signs a n ltac:(lia) ltac:(lia)) as (HQ & HP & HT).
  assert (Hev : Z.even (b - a) = Nat.even (S n)).
  { replace (b - a) with (Z.of_nat (S n)) by lia. apply even_of_nat. }
  rewrite Hev, <- Z.negb_even, Hev.
  assert (HTneg : T (chain a (S n)) < 0).
  { destruct (Nat.even (S n)).
    - rewrite Z.abs_eq in HT by lia. nia.
    - rewrite Z.abs_neq in HT by lia. nia. }
  repeat split; try assumption.
  - intros HS. destruct (Nat.even (S n)); [|reflexivity].
    rewrite (Z.sgn_neg _ HTneg), (Z.sgn_pos _ HP) in HS. discriminate.
  - intros Hodd. destruct (Nat.even (S n)); [discriminate|].
    rewrite (Z.sgn_neg _ HTneg), (Z.sgn_neg _ HP). reflexivity.
Qed.

Lemma C8_signs_witness :
  0 < 1 /\ 1 < 4 /\ 4 <= leaf_limit /\
  exists r,
    returns 1 4 r /\
    0 < Q r /\
    (if Z.even (4 - 1) then 0 < P r else P r < 0) /\
    T r < 0 /\
    (Z.sgn (T r) = Z.sgn (P r) <-> Z.odd (4 - 1) = true).
Proof.
  assert (H0 : 0 < 1) by lia.
  assert (H1 : 1 < 4) by lia.
  assert (H2 : 4 <= leaf_limit) by (unfold leaf_limit; lia).
  exact (conj H0 (conj H1 (conj H2 (C8_signs 1 4 H0 H1 H2)))).
Defined.

(** * The precision budget *)

Lemma iterations_quot d : int_range d -> iterations d = Z.quot d 14 + 10.
Proof.
  intros Hd. unfold iterations, int_add, int_div.
  assert (- 153391689 <= Z.quot d 14 <= 153391689).
  { unfold int_range, int_min, int_max in Hd.
    Z.to_euclidean_division_equations. lia. }
  rewrite (wrap_int_small (Z.quot d 14)) by int_lia.
  apply wrap_int_small. int_lia.
Qed.

Lemma default_prec_exact d :
  - 100 <= d <= 536870811 -> default_prec d = (d + 100) * 4.
Proof.
  intros Hd. unfold default_prec. int_simpl. reflexivity.
Qed.

(** C9 at [-d 536870812], the smallest digit count for which the product
    of line 171 leaves the [int] range: the term count is
    [floor(d/14) + 10], but [(decimals + 100) * 4] exceeds [INT_MAX], the
    [int] product is [-2147483648], and [mpf_set_default_prec] receives
    [2^64 - 2^31] instead of the [(d + 100) * 4 = 2147483648] bits that the
    comment of line 170 announces. *)
Theorem C9_precision_overflow :
  getopt_loop [Opt_d 536870812] initial_state
  = Some (mk_state 536870812 1 false false 64 0 None) /\
  int_range 536870812 /\
  iterations 536870812 = 536870812 / 14 + 10 /\
  int_max < (536870812 + 100) * 4 /\
  int_mul (int_add 536870812 100) 4 = - 2147483648 /\
  default_prec 536870812 = 2 ^ 64 - 2 ^ 31 /\
  default_prec 536870812 <> (536870812 + 100) * 4 /\
  st_default_prec
    (set_iterations
       (set_default_prec (mk_state 536870812 1 false false 64 0 None)))
  = 18446744071562067968.
Proof.
  split; [reflexivity|].
  split; [unfold int_range, int_min, int_max; lia|].
  split; [reflexivity|].
  split; [unfold int_max; lia|].
  split; [reflexivity|].
  split; [reflexivity|].
  split; [vm_compute; discriminate | reflexivity].
Qed.

(** * The unvalidated digit count *)

Lemma first_call_descends N n :
  - 2 ^ 30 <= N <= 0 ->
  fst (Nat.iter n first_call (0, N)) = 0 /\
  - 2 ^ 30 <= snd (Nat.iter n first_call (0, N)) <= 0.
Proof.
  intros HN. induction n as [|n [IH1 IH2]].
  - cbn. lia.
  - change (Nat.iter (S n) first_call (0, N))
      with (first_call (Nat.iter n first_call (0, N))).
    set (x := Nat.iter n first_call (0, N)) in *.
    unfold first_call. cbn [fst snd]. rewrite IH1.
    pose proof (midpoint_empty 0 (snd x)
                  ltac:(lia) ltac:(lia) ltac:(unfold int_max; lia)).
    lia.
Qed.

(** C10: [-d] is taken as [atoi] returns it, while [-t] is clamped to at
    least 1; for every [int] [d] with [d / 14 + 10 <= 0] (division rounding
    toward zero) the run calls [binary_split(0, N)] with [N <= 0]: the call
    never returns, and the chain of its first recursive calls never meets a
    range of width 1. *)
Theorem C10_unvalidated_decimals d :
  int_range d -> Z.quot d 14 + 10 <= 0 ->
  (exists s, getopt_loop [Opt_d d] initial_state = Some s /\
             st_decimals s = d /\ st_num_threads s = 1) /\
  (forall t, exists s, getopt_loop [Opt_t t] initial_state = Some s /\
                       st_num_threads s = Z.max 1 t) /\
  iterations d <= 0 /\
  (forall fuel, binary_split fuel 0 (iterations d) = OutOfFuel) /\
  (forall fmt fuel, main fmt fuel [Opt_d d] = OutOfFuel) /\
  (forall n,
      int_sub (snd (Nat.iter n first_call (0, iterations d)))
              (fst (Nat.iter n first_call (0, iterations d))) <> 1).
Proof.
  intros Hd HN.
  pose proof (iterations_quot d Hd) as Hit.
  assert (Hlow : - 2 ^ 30 <= iterations d <= 0).
  { rewrite Hit. unfold int_range, int_min, int_max in Hd.
    Z.to_euclidean_division_equations. lia. }
  assert (Hdiv : forall fuel, binary_split fuel 0 (iterations d) = OutOfFuel).
  { intros fuel. apply binary_split_empty; unfold int_max; lia. }
  split; [|split; [|split; [|split; [|split]]]].
  - eexists. cbn [getopt_loop st_decimals st_num_threads initial_state].
    repeat split.
  - intros t. eexists.
    cbn [getopt_loop st_decimals st_num_threads initial_state].
    split; [reflexivity|]. cbn [st_num_threads]. unfold clamp_threads.
    destruct (t <? 1) eqn:E; [apply Z.ltb_lt in E | apply Z.ltb_ge in E]; lia.
  - lia.
  - exact Hdiv.
  - intros fmt fuel. unfold main.
    cbn [getopt_loop initial_state st_decimals st_num_threads st_show_stats
         st_quiet_mode st_default_prec st_iterations st_stdout].
    unfold compute.
    cbn [set_iterations set_default_prec st_decimals st_num_threads
         st_iterations].
    change (1 =? 1) with true. cbv iota.
    rewrite Hdiv. reflexivity.
  - intros n.
    destruct (first_call_descends (iterations d) n Hlow) as [H1 H2].
    rewrite H1. rewrite int_sub_small by int_lia. lia.
Qed.

Lemma C10_unvalidated_decimals_witness :
  int_range (-140) /\ Z.quot (-140) 14 + 10 <= 0 /\
  (exists s, getopt_loop [Opt_d (-140)] initial_state = Some s /\
             st_decimals s = -140 /\ st_num_threads s = 1) /\
  (forall t, exists s, getopt_loop [Opt_t t] initial_state = Some s /\
                       st_num_threads s = Z.max 1 t) /\
  iterations (-140) <= 0 /\
  (forall fuel, binary_split fuel 0 (iterations (-140)) = OutOfFuel) /\
  (forall fmt fuel, main fmt fuel [Opt_d (-140)] = OutOfFuel) /\
  (forall n,
      int_sub (snd (Nat.iter n first_call (0, iterations (-140))))
              (fst (Nat.iter n first_call (0, iterations (-140)))) <> 1).
Proof.
  assert (H0 : int_range (-140)) by (unfold int_range, int_min, int_max; lia).
  assert (H1 : Z.quot (-140) 14 + 10 <= 0) by (vm_compute; discriminate).
  exact (conj H0 (conj H1 (C10_unvalidated_decimals (-140) H0 H1))).
Defined.

(** * Thread counts *)

Lemma parallel_split_starved N W fuel :
  0 <= N <= int_max -> 1 <= W <= int_max -> N < W ->
  parallel_split fuel N W = OutOfFuel.
Proof.
  intros HN HW Hlt. unfold parallel_split.
  rewrite (ranges_first_empty N W HN HW Hlt).
  unfold compute_bs_thread. cbn [fst snd].
  rewrite binary_split_empty by (unfold int_max; lia).
  reflexivity.
Qed.

Lemma iterations_bounds d :
  0 <= d <= int_max -> 10 <= iterations d <= 153391699.
Proof.
  intros Hd. rewrite iterations_quot by int_lia.
  unfold int_max in Hd. Z.to_euclidean_division_equations. lia.
Qed.

(** With at most one worker per term, and a digit count whose precision
    argument is the intended [(d + 100) * 4], what is printed does not
    depend on the thread count. *)
Lemma main_thread_count_independent fmt d W fuel :
  0 <= d <= 536870811 -> 1 <= W <= iterations d ->
  (Z.to_nat (iterations d) <= fuel)%nat ->
  exists s1 sW,
    main fmt fuel [Opt_d d; Opt_t 1] = Ret (Some s1) /\
    main fmt fuel [Opt_d d; Opt_t W] = Ret (Some sW) /\
    st_stdout s1 = st_stdout sW /\
    st_stdout s1
    = Some (fmt (default_prec d) d
                (Q (chain 0 (Z.to_nat (iterations d))))
                (T (chain 0 (Z.to_nat (iterations d))))).
Proof.
  intros Hd HW Hf.
  pose proof (iterations_bounds d ltac:(unfold int_max; lia)) as Hit.
  assert (Hs : iterations d <= split_limit) by (unfold split_limit; lia).
  assert (H1 : binary_split fuel 0 (iterations d)
               = Ret (chain 0 (Z.to_nat (iterations d)))).
  { rewrite binary_split_chain by lia. rewrite Z.sub_0_r. reflexivity. }
  unfold main.
  cbn [getopt_loop initial_state st_decimals st_num_threads st_show_stats
       st_quiet_mode st_default_prec st_iterations st_stdout].
  unfold compute.
  cbn [set_iterations set_default_prec st_decimals st_num_threads
       st_iterations].
  change (clamp_threads 1 =? 1) with true. cbv iota.
  rewrite H1. cbn [bind].
  replace (clamp_threads W) with W
    by (unfold clamp_threads;
        replace (W <? 1) with false by (symmetry; apply Z.ltb_ge; lia);
        reflexivity).
  destruct (W =? 1).
  - cbn [bind]. do 2 eexists. repeat split.
  - rewrite parallel_split_chain by (assumption || lia).
    cbn [bind]. do 2 eexists. repeat split.
Qed.

(** C4 at [-d 1000]: with one thread the run prints the digits obtained
    from [binary_split(0, 81)]; with [-t 100] worker 0 is given the empty
    range [[0, 0)] and the run never gets to print. *)
Theorem C4_more_threads_than_terms fmt :
  (exists s,
      main fmt 81 [Opt_d 1000; Opt_t 1] = Ret (Some s) /\
      st_stdout s
      = Some (fmt 4400 1000 (Q (chain 0 81)) (T (chain 0 81)))) /\
  (forall fuel, main fmt fuel [Opt_d 1000; Opt_t 100] = OutOfFuel).
Proof.
  split.
  - destruct (main_thread_count_independent fmt 1000 1 81)
      as (s1 & _ & H1 & _ & _ & Hout);
      [lia | vm_compute; split; discriminate
      | vm_compute; lia |].
    exists s1. split; [exact H1|]. exact Hout.
  - intros fuel. unfold main.
    cbn [getopt_loop initial_state st_decimals st_num_threads st_show_stats
         st_quiet_mode st_default_prec st_iterations st_stdout].
    unfold compute.
    cbn [set_iterations set_default_prec st_decimals st_num_threads
         st_iterations].
    change (clamp_threads 100 =? 1) with false. cbv iota.
    change (clamp_threads 100) with 100.
    change (iterations 1000) with 81.
    rewrite parallel_split_starved by (unfold int_max; lia).
    reflexivity.
Qed.

(** C6 at [-d 1000 -t 100]: [N = 81], [chunk = 0]; the range of worker 0
    is [[0, 0)], which is empty, and [binary_split] does not return on it. *)
Theorem C6_empty_worker_range :
  iterations 1000 = 81 /\
  chunk 81 100 = 0 /\
  worker_range 81 100 0 = (0, 0) /\
  ~ fst (worker_range 81 100 0) < snd (worker_range 81 100 0) /\
  (forall fuel,
      compute_bs_thread fuel (worker_range 81 100 0) = OutOfFuel).
Proof.
  assert (H : worker_range 81 100 0 = (0, 0)) by reflexivity.
  split; [reflexivity|]. split; [reflexivity|]. split; [exact H|].
  rewrite H. cbn [fst snd]. split; [lia|].
  intros fuel. unfold compute_bs_thread. cbn [fst snd].
  apply binary_split_empty; unfold int_max; lia.
Qed.

(** * Further properties of the program *)

(** ** The combination rule *)

(** X1: the rule of the recursive case is associative, and the aggregation
    loop of [main], which performs the multiplications in another order,
    applies the same rule; folding the workers' triples one by one is thus
    the same as combining them in any grouping that keeps their order. *)
Theorem combination_rule_associative x y z :
  combine (combine x y) z = combine x (combine y z) /\
  aggregate_step x y = combine x y /\
  aggregate_step (aggregate_step x y) z = combine x (combine y z).
Proof.
  split; [apply combine_assoc|]. split; [apply aggregate_step_combine|].
  rewrite !aggregate_step_combine. apply combine_assoc.
Qed.

(** ** What the triple is *)

Lemma sum_upto_scale f g c n :
  (forall i, (i < n)%nat -> f i = c * g i) ->
  sum_upto f n = c * sum_upto g n.
Proof.
  induction n as [|n IH]; intros H; cbn [sum_upto]; [ring|].
  rewrite IH by (intros i Hi; apply H; lia).
  rewrite (H n) by lia. ring.
Qed.

Lemma prod_Q_succ a n :
  prod_Q a (S n) = prod_Q a n * Q (leaf_pqt (a + Z.of_nat n)).
Proof. reflexivity. Qed.

Lemma series_term_extend a m i :
  (i < m)%nat ->
  series_term a (S m) i
  = Q (leaf_pqt (a + Z.of_nat m)) * series_term a m i.
Proof.
  intros Hi. unfold series_term.
  replace (S m - 1 - i)%nat with (S (m - 1 - i)) by lia.
  rewrite prod_Q_succ.
  replace (a + Z.of_nat i + 1 + Z.of_nat (m - 1 - i)) with (a + Z.of_nat m)
    by lia.
  ring.
Qed.

Lemma series_term_last a m :
  series_term a (S m) m = prod_P a m * T (leaf_pqt (a + Z.of_nat m)).
Proof.
  unfold series_term. replace (S m - 1 - m)%nat with O by lia.
  cbn [prod_Q]. ring.
Qed.

Lemma series_T_succ a m :
  series_T a (S m)
  = Q (leaf_pqt (a + Z.of_nat m)) * series_T a m
    + prod_P a m * T (leaf_pqt (a + Z.of_nat m)).
Proof.
  unfold series_T. cbn [sum_upto].
  rewrite (sum_upto_scale _ (series_term a m)
             (Q (leaf_pqt (a + Z.of_nat m))))
    by (intros i Hi; apply series_term_extend; assumption).
  rewrite series_term_last. reflexivity.
Qed.

Lemma chain_series a n :
  P (chain a (S n)) = prod_P a (S n) /\
  Q (chain a (S n)) = prod_Q a (S n) /\
  T (chain a (S n)) = series_T a (S n).
Proof.
  induction n as [|n (HP & HQ & HT)].
  - cbn [chain prod_P prod_Q]. rewrite series_T_succ.
    unfold series_T. cbn [sum_upto prod_P Z.of_nat].
    rewrite Z.add_0_r. repeat split; ring.
  - rewrite chain_succ. unfold combine. cbn [P Q T].
    rewrite HP, HQ, HT. rewrite (series_T_succ a (S n)).
    cbn [prod_P prod_Q]. repeat split; ring.
Qed.

(** X2: on every range [[a, b)] with [0 <= a < b <= 2^30] the returned
    triple is the series itself: [P] is the product of the leaves' [P], [Q]
    the product of the leaves' [Q], and [T] the sum over the indices [k] of
    (product of the [P] below [k]) * (leaf [T] of [k]) * (product of the [Q]
    above [k]). *)
Theorem binary_split_is_series a b :
  0 <= a -> a < b -> b <= split_limit ->
  exists r,
    returns a b r /\
    P r = prod_P a (Z.to_nat (b - a)) /\
    Q r = prod_Q a (Z.to_nat (b - a)) /\
    T r = series_T a (Z.to_nat (b - a)).
Proof.
  intros Ha Hab Hb. exists (chain a (Z.to_nat (b - a))).
  split; [apply returns_chain; lia|].
  destruct (Z.to_nat (b - a)) as [|n] eqn:E; [lia|].
  apply chain_series.
Qed.

Lemma binary_split_is_series_witness :
  0 <= 2 /\ 2 < 9 /\ 9 <= split_limit /\
  exists r,
    returns 2 9 r /\
    P r = prod_P 2 (Z.to_nat (9 - 2)) /\
    Q r = prod_Q 2 (Z.to_nat (9 - 2)) /\
    T r = series_T 2 (Z.to_nat (9 - 2)).
Proof.
  assert (H0 : 0 <= 2) by lia.
  assert (H1 : 2 < 9) by lia.
  assert (H2 : 9 <= split_limit) by (unfold split_limit; lia).
  exact (conj H0 (conj H1 (conj H2 (binary_split_is_series 2 9 H0 H1 H2)))).
Defined.

(** ** The depth of the recursion *)

Lemma binary_split_step fuel a b :
  binary_split (S fuel) a b =
  if int_sub b a =? 1 then leaf a
  else
    l <- binary_split fuel a (midpoint a b) ;;
    r <- binary_split fuel (midpoint a b) b ;;
    Ret (combine l r).
Proof. reflexivity. Qed.

Lemma binary_split_deep f : forall a b,
  0 <= a < b -> b <= split_limit ->
  b - a <= 2 ^ Z.of_nat f ->
  binary_split (S f) a b = Ret (chain a (Z.to_nat (b - a))).
Proof.
  induction f as [|f IH]; intros a b Hab Hb Hw.
  - change (2 ^ Z.of_nat 0) with 1 in Hw.
    apply binary_split_chain; lia.
  - rewrite binary_split_step.
    rewrite int_sub_small by (unfold split_limit in Hb; int_lia).
    destruct (b - a =? 1) eqn:E.
    + apply Z.eqb_eq in E. rewrite E. apply leaf_returns.
    + apply Z.eqb_neq in E.
      destruct (midpoint_inside a b) as [Hm Hin]; [lia | lia | assumption |].
      rewrite Hm.
      rewrite Nat2Z.inj_succ, Z.pow_succ_r in Hw by lia.
      pose proof (Z.div_mod (a + b) 2 ltac:(lia)).
      pose proof (Z.mod_pos_bound (a + b) 2 ltac:(lia)).
      rewrite (IH a ((a + b) / 2)) by lia.
      rewrite (IH ((a + b) / 2) b) by lia.
      cbn [bind]. f_equal. symmetry. apply chain_split. assumption.
Qed.

Lemma binary_split_shallow f : forall a b,
  0 <= a < b -> b <= split_limit ->
  2 ^ Z.of_nat f < b - a ->
  binary_split (S f) a b = OutOfFuel.
Proof.
  induction f as [|f IH]; intros a b Hab Hb Hw.
  - change (2 ^ Z.of_nat 0) with 1 in Hw. cbn [binary_split].
    rewrite int_sub_small by (unfold split_limit in Hb; int_lia).
    replace (b - a =? 1) with false by (symmetry; apply Z.eqb_neq; lia).
    reflexivity.
  - rewrite binary_split_step.
    rewrite int_sub_small by (unfold split_limit in Hb; int_lia).
    rewrite Nat2Z.inj_succ, Z.pow_succ_r in Hw by lia.
    assert (0 < 2 ^ Z.of_nat f) by (apply Z.pow_pos_nonneg; lia).
    replace (b - a =? 1) with false by (symmetry; apply Z.eqb_neq; lia).
    destruct (midpoint_inside a b) as [Hm Hin]; [lia | lia | assumption |].
    rewrite Hm.
    pose proof (Z.div_mod (a + b) 2 ltac:(lia)).
    pose proof (Z.mod_pos_bound (a + b) 2 ltac:(lia)).
    rewrite (IH ((a + b) / 2) b) by lia.
    destruct (binary_split (S f) a ((a + b) / 2)) as [l| |] eqn:El;
      cbn [bind]; try reflexivity.
    exfalso. exact (binary_split_no_misuse _ _ _ El).
Qed.

Lemma binary_split_frames a b fuel :
  0 <= a < b -> b <= split_limit -> (31 <= fuel)%nat ->
  binary_split fuel a b = Ret (chain a (Z.to_nat (b - a))).
Proof.
  intros Hab Hb Hf. destruct fuel as [|f]; [lia|].
  apply binary_split_deep; try assumption.
  transitivity (2 ^ 30); [unfold split_limit in Hb; lia|].
  apply Z.pow_le_mono_r; lia.
Qed.

(** X3: on a range [[a, b)] with [0 <= a < b <= 2^30] the call returns
    within a call stack of depth [fuel] exactly when
    [b - a <= 2 ^ (fuel - 1)]: the recursion is [ceil(log2 (b - a)) + 1]
    frames deep, and 31 frames are enough for every such range. *)
Theorem binary_split_depth a b fuel :
  0 <= a -> a < b -> b <= split_limit ->
  ((exists r, binary_split fuel a b = Ret r) <->
   (1 <= fuel)%nat /\ b - a <= 2 ^ (Z.of_nat fuel - 1)) /\
  ((31 <= fuel)%nat -> exists r, binary_split fuel a b = Ret r).
Proof.
  intros Ha Hab Hb.
  assert (Hiff : (exists r, binary_split fuel a b = Ret r) <->
                 (1 <= fuel)%nat /\ b - a <= 2 ^ (Z.of_nat fuel - 1)).
  { destruct fuel as [|f].
    - split; [intros [r H]; discriminate | lia].
    - replace (Z.of_nat (S f) - 1) with (Z.of_nat f) by lia. split.
      + intros [r H]. split; [lia|].
        destruct (Z_le_gt_dec (b - a) (2 ^ Z.of_nat f)) as [Hle|Hgt];
          [assumption|].
        rewrite binary_split_shallow in H by lia. discriminate.
      + intros [_ Hw]. eexists. apply binary_split_deep; lia. }
  split; [exact Hiff|].
  intros Hf. apply Hiff. split; [lia|].
  transitivity (2 ^ 30); [unfold split_limit in Hb; lia|].
  apply Z.pow_le_mono_r; lia.
Qed.

Lemma binary_split_depth_witness :
  0 <= 0 /\ 0 < 81 /\ 81 <= split_limit /\
  ((exists r, binary_split 8 0 81 = Ret r) <->
   (1 <= 8)%nat /\ 81 - 0 <= 2 ^ (Z.of_nat 8 - 1)) /\
  ((31 <= 8)%nat -> exists r, binary_split 8 0 81 = Ret r).
Proof.
  assert (H0 : 0 <= 0) by lia.
  assert (H1 : 0 < 81) by lia.
  assert (H2 : 81 <= split_limit) by (unfold split_limit; lia).
  exact (conj H0 (conj H1 (conj H2 (binary_split_depth 0 81 8 H0 H1 H2)))).
Defined.

(** ** Empty and reversed ranges *)

(** X4: [binary_split] has no case for a range without indices: on every
    [(a, b)] with [-2^30 <= b <= a < 2^30] it returns at no depth. *)
Theorem binary_split_no_base_case a b fuel :
  - 2 ^ 30 <= b -> b <= a -> a < 2 ^ 30 ->
  binary_split fuel a b = OutOfFuel /\
  b <= midpoint a b <= a /\
  int_sub (midpoint a b) a <> 1.
Proof.
  intros Hb Hba Ha.
  destruct (midpoint_empty a b ltac:(lia) ltac:(lia)
              ltac:(unfold int_max; lia)) as [Hm _].
  split; [apply binary_split_empty; unfold int_max; lia|].
  split; [exact Hm|].
  rewrite int_sub_small by int_lia. lia.
Qed.

Lemma binary_split_no_base_case_witness :
  - 2 ^ 30 <= 3 /\ 3 <= 7 /\ 7 < 2 ^ 30 /\
  binary_split 5 7 3 = OutOfFuel /\
  3 <= midpoint 7 3 <= 7 /\
  int_sub (midpoint 7 3) 7 <> 1.
Proof.
  assert (H0 : - 2 ^ 30 <= 3) by lia.
  assert (H1 : 3 <= 7) by lia.
  assert (H2 : 7 < 2 ^ 30) by lia.
  exact (conj H0 (conj H1 (conj H2
           (binary_split_no_base_case 7 3 5 H0 H1 H2)))).
Defined.

(** ** The distribution of the terms over the workers *)

Lemma worker_index_exists N W k :
  0 <= N <= int_max -> 1 <= W <= int_max -> 0 <= k < N ->
  exists i, 0 <= i < W /\ data_a N W i <= k < data_b N W i.
Proof.
  intros HN HW Hk. destruct (chunk_bounds N W HN HW) as [H0 H1].
  destruct (Z_lt_le_dec k ((W - 1) * (N / W))) as [Hlt|Hge].
  - assert (Hc : 0 < N / W) by nia.
    exists (k / (N / W)).
    pose proof (Z.div_mod k (N / W) ltac:(lia)).
    pose proof (Z.mod_pos_bound k (N / W) Hc).
    assert (0 <= k / (N / W)) by (apply Z.div_pos; lia).
    assert (k / (N / W) < W - 1) by nia.
    rewrite data_a_eq, data_b_eq by lia.
    replace (k / (N / W) =? W - 1) with false
      by (symmetry; apply Z.eqb_neq; lia).
    nia.
  - exists (W - 1). rewrite data_a_eq, data_b_eq by lia.
    rewrite Z.eqb_refl. lia.
Qed.

(** X5: for every term count [0 <= N <= INT_MAX] and thread count
    [1 <= W <= INT_MAX] the ranges of lines 214-215 start at 0, end at [N],
    each begins where the previous one ends, and every index below [N] is
    in the range of exactly one worker. *)
Theorem worker_ranges_partition N W :
  0 <= N <= int_max -> 1 <= W <= int_max ->
  data_a N W 0 = 0 /\
  data_b N W (W - 1) = N /\
  (forall i, 0 <= i < W - 1 -> data_b N W i = data_a N W (i + 1)) /\
  (forall i, 0 <= i < W -> data_a N W i <= data_b N W i) /\
  (forall k, 0 <= k < N ->
     exists i, 0 <= i < W /\ data_a N W i <= k < data_b N W i /\
               forall j, 0 <= j < W ->
                         data_a N W j <= k < data_b N W j -> j = i).
Proof.
  intros HN HW.
  split; [apply ranges_start; assumption|].
  split; [apply ranges_end; assumption|].
  split; [intros i Hi; apply ranges_adjacent; assumption|].
  split; [intros i Hi; apply ranges_ordered; assumption|].
  intros k Hk.
  destruct (worker_index_exists N W k HN HW Hk) as (i & Hi & Hin).
  exists i. split; [assumption|]. split; [assumption|].
  intros j Hj Hjn.
  exact (worker_ranges_disjoint N W HN HW j i k Hj Hi Hjn Hin).
Qed.

Lemma worker_ranges_partition_witness :
  0 <= 81 <= int_max /\ 1 <= 4 <= int_max /\
  data_a 81 4 0 = 0 /\
  data_b 81 4 (4 - 1) = 81 /\
  (forall i, 0 <= i < 4 - 1 -> data_b 81 4 i = data_a 81 4 (i + 1)) /\
  (forall i, 0 <= i < 4 -> data_a 81 4 i <= data_b 81 4 i) /\
  (forall k, 0 <= k < 81 ->
     exists i, 0 <= i < 4 /\ data_a 81 4 i <= k < data_b 81 4 i /\
               forall j, 0 <= j < 4 ->
                         data_a 81 4 j <= k < data_b 81 4 j -> j = i).
Proof.
  assert (H0 : 0 <= 81 <= int_max) by (unfold int_max; lia).
  assert (H1 : 1 <= 4 <= int_max) by (unfold int_max; lia).
  exact (conj H0 (conj H1 (worker_ranges_partition 81 4 H0 H1))).
Defined.

(** X6: with [N >= 1] terms, every worker gets at least one term exactly
    when there are at most [N] workers; with more workers than terms all
    the ranges but the last are [[0, 0)], and the last is [[0, N)]. *)
Theorem worker_ranges_nonempty_iff N W :
  1 <= N <= int_max -> 1 <= W <= int_max ->
  ((forall i, 0 <= i < W -> data_a N W i < data_b N W i) <-> W <= N) /\
  (N < W ->
   (forall i, 0 <= i < W - 1 -> data_a N W i = 0 /\ data_b N W i = 0) /\
   data_a N W (W - 1) = 0 /\ data_b N W (W - 1) = N).
Proof.
  intros HN HW.
  assert (HN' : 0 <= N <= int_max) by lia.
  assert (Hstarved : N < W ->
            (forall i, 0 <= i < W - 1 ->
                       data_a N W i = 0 /\ data_b N W i = 0) /\
            data_a N W (W - 1) = 0 /\ data_b N W (W - 1) = N).
  { intros Hlt. split; [|split].
    - intros i Hi. rewrite data_a_eq, data_b_eq by lia.
      rewrite (Z.div_small N W) by lia.
      replace (i =? W - 1) with false by (symmetry; apply Z.eqb_neq; lia).
      lia.
    - rewrite data_a_eq by lia. rewrite (Z.div_small N W) by lia. lia.
    - apply ranges_end; assumption. }
  split; [|exact Hstarved].
  split.
  - intros Hall. destruct (Z_le_gt_dec W N) as [Hle|Hgt]; [assumption|].
    destruct (Hstarved ltac:(lia)) as [H0 _].
    specialize (Hall 0 ltac:(lia)). specialize (H0 0 ltac:(lia)). lia.
  - intros Hle i Hi. apply ranges_nonempty; assumption.
Qed.

Lemma worker_ranges_nonempty_iff_witness :
  1 <= 81 <= int_max /\ 1 <= 100 <= int_max /\
  ((forall i, 0 <= i < 100 -> data_a 81 100 i < data_b 81 100 i)
   <-> 100 <= 81) /\
  (81 < 100 ->
   (forall i, 0 <= i < 100 - 1 ->
              data_a 81 100 i = 0 /\ data_b 81 100 i = 0) /\
   data_a 81 100 (100 - 1) = 0 /\ data_b 81 100 (100 - 1) = 81).
Proof.
  assert (H0 : 1 <= 81 <= int_max) by (unfold int_max; lia).
  assert (H1 : 1 <= 100 <= int_max) by (unfold int_max; lia).
  exact (conj H0 (conj H1 (worker_ranges_nonempty_iff 81 100 H0 H1))).
Defined.

(** ** The parallel path *)

Lemma aggregate_chain_deep N W fuel :
  1 <= W <= N -> N <= split_limit -> (31 <= fuel)%nat ->
  forall k j : nat,
  (1 <= j)%nat -> (j + k)%nat = Z.to_nat W ->
  aggregate fuel (chain 0 (Z.to_nat (data_b N W (Z.of_nat j - 1))))
            (map (worker_range N W) (seq j k))
  = Ret (chain 0 (Z.to_nat N)).
Proof.
  intros HW HN Hf.
  assert (HN' : 0 <= N <= int_max) by (unfold split_limit in HN; int_lia).
  assert (HW' : 1 <= W <= int_max) by (unfold split_limit in HN; int_lia).
  destruct (chunk_bounds N W HN' HW') as [Hc0 Hc1].
  assert (Hc : 1 <= N / W) by (apply Z.div_le_lower_bound; lia).
  induction k as [|k IH]; intros j Hj Hjk.
  - cbn [seq map aggregate].
    replace (Z.of_nat j - 1) with (W - 1) by lia.
    rewrite ranges_end by assumption. reflexivity.
  - cbn [seq map aggregate]. unfold compute_bs_thread, worker_range.
    cbn [fst snd].
    pose proof (ranges_adjacent N W HN' HW' (Z.of_nat j - 1) ltac:(lia)) as Hadj.
    replace (Z.of_nat j - 1 + 1) with (Z.of_nat j) in Hadj by lia.
    pose proof (ranges_nonempty N W HN' HW' (Z.of_nat j) ltac:(lia) ltac:(lia)).
    assert (0 < data_a N W (Z.of_nat j))
      by (rewrite data_a_eq by (assumption || lia); nia).
    assert (data_b N W (Z.of_nat j) <= N).
    { rewrite data_b_eq by (assumption || lia).
      destruct (Z.of_nat j =? W - 1); nia. }
    rewrite binary_split_frames by lia. cbn [bind].
    rewrite aggregate_step_combine, Hadj.
    replace (Z.to_nat (data_a N W (Z.of_nat j)))
      with (Z.to_nat (data_a N W (Z.of_nat j) - 0)) by (f_equal; lia).
    rewrite <- (chain_split 0 (data_a N W (Z.of_nat j))
                  (data_b N W (Z.of_nat j))) by lia.
    rewrite Z.sub_0_r.
    specialize (IH (S j) ltac:(lia) ltac:(lia)).
    replace (Z.of_nat (S j) - 1) with (Z.of_nat j) in IH by lia.
    exact IH.
Qed.

Lemma parallel_split_deep N W fuel :
  1 <= W <= N -> N <= split_limit -> (31 <= fuel)%nat ->
  parallel_split fuel N W = Ret (chain 0 (Z.to_nat N)).
Proof.
  intros HW HN Hf.
  assert (HN' : 0 <= N <= int_max) by (unfold split_limit in HN; int_lia).
  assert (HW' : 1 <= W <= int_max) by (unfold split_limit in HN; int_lia).
  unfold parallel_split, compute_bs_thread, worker_range.
  cbn [fst snd Z.of_nat].
  pose proof (ranges_nonempty N W HN' HW' 0 ltac:(lia) ltac:(lia)).
  assert (data_b N W 0 <= N).
  { rewrite data_b_eq by (assumption || lia).
    destruct (chunk_bounds N W HN' HW'). destruct (0 =? W - 1); nia. }
  rewrite (ranges_start N W HN' HW') in *.
  rewrite binary_split_frames by lia. cbn [bind].
  rewrite Z.sub_0_r.
  apply (aggregate_chain_deep N W fuel HW HN Hf (Z.to_nat W - 1) 1); lia.
Qed.

(** X7: with [N <= 2^30] terms and [1 <= W <= N] workers, and a call stack
    of at least 31 frames, the fold of the workers' triples in the order of
    their ranges returns exactly the triple that [binary_split(0, N)]
    returns; so the aggregate is the same for every such [W]. *)
Theorem parallel_equals_sequential N W fuel :
  1 <= W -> W <= N -> N <= split_limit -> (31 <= fuel)%nat ->
  exists r,
    binary_split fuel 0 N = Ret r /\
    parallel_split fuel N W = Ret r /\
    forall W', 1 <= W' <= N -> parallel_split fuel N W' = Ret r.
Proof.
  intros HW1 HWN HN Hf. exists (chain 0 (Z.to_nat N)).
  split; [|split].
  - rewrite binary_split_frames by lia. rewrite Z.sub_0_r. reflexivity.
  - apply parallel_split_deep; lia.
  - intros W' HW'. apply parallel_split_deep; lia.
Qed.

Lemma parallel_equals_sequential_witness :
  1 <= 8 /\ 8 <= 81 /\ 81 <= split_limit /\ (31 <= 40)%nat /\
  exists r,
    binary_split 40 0 81 = Ret r /\
    parallel_split 40 81 8 = Ret r /\
    forall W', 1 <= W' <= 81 -> parallel_split 40 81 W' = Ret r.
Proof.
  assert (H0 : 1 <= 8) by lia.
  assert (H1 : 8 <= 81) by lia.
  assert (H2 : 81 <= split_limit) by (unfold split_limit; lia).
  assert (H3 : (31 <= 40)%nat) by lia.
  exact (conj H0 (conj H1 (conj H2 (conj H3
           (parallel_equals_sequential 81 8 40 H0 H1 H2 H3))))).
Defined.

(** ** The option loop *)

Lemma getopt_loop_app o1 : forall o2 s0,
  getopt_loop (o1 ++ o2) s0 =
  match getopt_loop o1 s0 with
  | Some s => getopt_loop o2 s
  | None => None
  end.
Proof.
  induction o1 as [|o o1 IH]; intros o2 s0; [reflexivity|].
  destruct o; cbn [app getopt_loop]; try apply IH; reflexivity.
Qed.

Lemma getopt_loop_frame opts : forall s0 s,
  getopt_loop opts s0 = Some s ->
  (1 <= st_num_threads s0 -> 1 <= st_num_threads s) /\
  st_default_prec s = st_default_prec s0 /\
  st_iterations s = st_iterations s0 /\
  st_stdout s = st_stdout s0.
Proof.
  induction opts as [|o opts IH]; intros s0 s H.
  - injection H as <-. repeat split; auto.
  - destruct o; cbn [getopt_loop] in H; try discriminate;
      apply IH in H; cbn [st_num_threads st_default_prec st_iterations
                          st_stdout] in H;
      destruct H as (H1 & H2 & H3 & H4); repeat split; auto.
    intros _. apply H1. unfold clamp_threads.
    destruct (n <? 1) eqn:E; [lia | apply Z.ltb_ge in E; lia].
Qed.

Lemma getopt_loop_none opts : forall s0,
  getopt_loop opts s0 = None <-> In Opt_h opts \/ In Opt_unknown opts.
Proof.
  induction opts as [|o opts IH]; intros s0.
  - cbn. split; [discriminate | intros [[]|[]]].
  - destruct o; cbn [getopt_loop In]; rewrite ?IH;
      try (split; [intros [H|H]; [left|right]; right; exact H
                  | intros [[H|H]|[H|H]]; try discriminate; auto]).
    + split; [intros _; left; left; reflexivity | reflexivity].
    + split; [intros _; right; left; reflexivity | reflexivity].
Qed.

(** X8: whatever the options, when the loop of lines 142-164 ends normally
    the thread count is at least 1 and nothing has been computed or printed;
    [main] returns from inside the loop, without calling [binary_split],
    exactly when [-h] or an unknown option occurs; and parsing two option
    lists in a row is parsing the second from the state left by the first. *)
Theorem getopt_loop_properties opts :
  (forall s, getopt_loop opts initial_state = Some s ->
             1 <= st_num_threads s /\
             st_default_prec s = 64 /\
             st_iterations s = 0 /\
             st_stdout s = None) /\
  (getopt_loop opts initial_state = None <->
   In Opt_h opts \/ In Opt_unknown opts) /\
  (In Opt_h opts \/ In Opt_unknown opts ->
   forall fmt fuel, main fmt fuel opts = Ret None) /\
  (forall opts' s0,
     getopt_loop (opts ++ opts') s0 =
     match getopt_loop opts s0 with
     | Some s => getopt_loop opts' s
     | None => None
     end).
Proof.
  split; [|split; [|split]].
  - intros s H. apply getopt_loop_frame in H.
    cbn [initial_state st_num_threads st_default_prec st_iterations
         st_stdout] in H.
    destruct H as (H1 & H2 & H3 & H4). repeat split; auto. apply H1. lia.
  - apply getopt_loop_none.
  - intros H fmt fuel. unfold main.
    apply (getopt_loop_none opts initial_state) in H. rewrite H. reflexivity.
  - intros opts' s0. apply getopt_loop_app.
Qed.

Lemma getopt_loop_keeps_decimals opts : forall s0 s1,
  getopt_loop opts s0 = Some s1 ->
  (forall m, ~ In (Opt_d m) opts) ->
  st_decimals s1 = st_decimals s0.
Proof.
  induction opts as [|o opts IH]; intros s0 s1 H Hno.
  - injection H as <-. reflexivity.
  - destruct o; cbn [getopt_loop] in H; try discriminate;
      try (apply IH in H; [exact H | intros m Hm; apply (Hno m); right;
                                     exact Hm]).
    exfalso. apply (Hno n). left. reflexivity.
Qed.

Lemma getopt_loop_keeps_threads opts : forall s0 s1,
  getopt_loop opts s0 = Some s1 ->
  (forall m, ~ In (Opt_t m) opts) ->
  st_num_threads s1 = st_num_threads s0.
Proof.
  induction opts as [|o opts IH]; intros s0 s1 H Hno.
  - injection H as <-. reflexivity.
  - destruct o; cbn [getopt_loop] in H; try discriminate;
      try (apply IH in H; [exact H | intros m Hm; apply (Hno m); right;
                                     exact Hm]).
    exfalso. apply (Hno n). left. reflexivity.
Qed.

(** X9: when the option loop ends normally, the digit count is that of the
    last [-d] on the command line, taken as it is, and 1000 when there is
    none; the thread count is that of the last [-t], raised to 1 when it is
    smaller, and 1 when there is none. *)
Theorem last_option_wins opts s :
  getopt_loop opts initial_state = Some s ->
  (forall o1 o2 n,
     opts = o1 ++ Opt_d n :: o2 -> (forall m, ~ In (Opt_d m) o2) ->
     st_decimals s = n) /\
  (forall o1 o2 n,
     opts = o1 ++ Opt_t n :: o2 -> (forall m, ~ In (Opt_t m) o2) ->
     st_num_threads s = Z.max 1 n) /\
  ((forall m, ~ In (Opt_d m) opts) -> st_decimals s = 1000) /\
  ((forall m, ~ In (Opt_t m) opts) -> st_num_threads s = 1).
Proof.
  intros H. split; [|split; [|split]].
  - intros o1 o2 n -> Hno. rewrite getopt_loop_app in H.
    destruct (getopt_loop o1 initial_state) as [s1|]; [|discriminate].
    cbn [getopt_loop] in H.
    rewrite (getopt_loop_keeps_decimals _ _ _ H Hno). reflexivity.
  - intros o1 o2 n -> Hno. rewrite getopt_loop_app in H.
    destruct (getopt_loop o1 initial_state) as [s1|]; [|discriminate].
    cbn [getopt_loop] in H.
    rewrite (getopt_loop_keeps_threads _ _ _ H Hno).
    cbn [st_num_threads]. unfold clamp_threads.
    destruct (n <? 1) eqn:E; [apply Z.ltb_lt in E | apply Z.ltb_ge in E]; lia.
  - intros Hno. apply (getopt_loop_keeps_decimals _ _ _ H Hno).
  - intros Hno. apply (getopt_loop_keeps_threads _ _ _ H Hno).
Qed.

Lemma last_option_wins_witness :
  let opts := [Opt_d 7; Opt_t 0; Opt_d 50; Opt_q] in
  let s := mk_state 50 1 false true 64 0 None in
  getopt_loop opts initial_state = Some s /\
  (forall o1 o2 n,
     opts = o1 ++ Opt_d n :: o2 -> (forall m, ~ In (Opt_d m) o2) ->
     st_decimals s = n) /\
  (forall o1 o2 n,
     opts = o1 ++ Opt_t n :: o2 -> (forall m, ~ In (Opt_t m) o2) ->
     st_num_threads s = Z.max 1 n) /\
  ((forall m, ~ In (Opt_d m) opts) -> st_decimals s = 1000) /\
  ((forall m, ~ In (Opt_t m) opts) -> st_num_threads s = 1).
Proof.
  intros opts s.
  assert (H : getopt_loop opts initial_state = Some s) by reflexivity.
  exact (conj H (last_option_wins opts s H)).
Defined.

(** ** Complete runs *)

(** X10: when the options parse, the digit count [d] is in
    [0, 536870811], so that the precision requested is the intended
    [4 * d + 400] bits, and the thread count is at most the [d / 14 + 10]
    terms, [main] returns within a stack of 31 frames of [binary_split]: the
    term count is [iterations d], and what is printed is the text made from
    [Q] and [T] of [binary_split(0, iterations d)], or nothing under [-q]. *)
Theorem main_returns fmt opts s fuel :
  getopt_loop opts initial_state = Some s ->
  0 <= st_decimals s <= 536870811 ->
  st_num_threads s <= iterations (st_decimals s) ->
  (31 <= fuel)%nat ->
  default_prec (st_decimals s) = 4 * st_decimals s + 400 /\
  exists r,
    returns 0 (iterations (st_decimals s)) r /\
    main fmt fuel opts =
    Ret (Some (mk_state (st_decimals s) (st_num_threads s)
                        (st_show_stats s) (st_quiet_mode s)
                        (4 * st_decimals s + 400)
                        (iterations (st_decimals s))
                        (if st_quiet_mode s then None
                         else Some (fmt (4 * st_decimals s + 400)
                                        (st_decimals s) (Q r) (T r))))).
Proof.
  intros Hopt Hd HW Hf.
  assert (Hd' : 0 <= st_decimals s <= int_max) by (unfold int_max; lia).
  pose proof (iterations_bounds _ Hd') as Hit.
  assert (Hp : default_prec (st_decimals s) = 4 * st_decimals s + 400)
    by (rewrite default_prec_exact by lia; ring).
  assert (Hs : iterations (st_decimals s) <= split_limit)
    by (unfold split_limit; lia).
  destruct (getopt_loop_frame _ _ _ Hopt) as (Hth & _).
  cbn [initial_state st_num_threads] in Hth. specialize (Hth ltac:(lia)).
  split; [exact Hp|].
  exists (chain 0 (Z.to_nat (iterations (st_decimals s)))).
  split.
  - pose proof (returns_chain 0 (iterations (st_decimals s))
                  ltac:(lia) Hs) as H.
    rewrite Z.sub_0_r in H. exact H.
  - unfold main. rewrite Hopt. unfold compute.
    cbn [set_iterations set_default_prec st_decimals st_num_threads
         st_iterations].
    destruct (st_num_threads s =? 1).
    + rewrite binary_split_frames by lia. rewrite Z.sub_0_r.
      cbn [bind]. unfold print_pi.
      cbn [set_iterations set_default_prec st_decimals st_num_threads
           st_show_stats st_quiet_mode st_default_prec st_iterations].
      rewrite Hp. reflexivity.
    + rewrite parallel_split_deep by lia.
      cbn [bind]. unfold print_pi.
      cbn [set_iterations set_default_prec st_decimals st_num_threads
           st_show_stats st_quiet_mode st_default_prec st_iterations].
      rewrite Hp. reflexivity.
Qed.

Lemma main_returns_witness :
  let fmt := fun _ _ _ _ : Z => EmptyString in
  let opts := [Opt_d 1000; Opt_t 4; Opt_q] in
  let s := mk_state 1000 4 false true 64 0 None in
  getopt_loop opts initial_state = Some s /\
  0 <= st_decimals s <= 536870811 /\
  st_num_threads s <= iterations (st_decimals s) /\
  (31 <= 31)%nat /\
  default_prec (st_decimals s) = 4 * st_decimals s + 400 /\
  exists r,
    returns 0 (iterations (st_decimals s)) r /\
    main fmt 31 opts =
    Ret (Some (mk_state (st_decimals s) (st_num_threads s)
                        (st_show_stats s) (st_quiet_mode s)
                        (4 * st_decimals s + 400)
                        (iterations (st_decimals s))
                        (if st_quiet_mode s then None
                         else Some (fmt (4 * st_decimals s + 400)
                                        (st_decimals s) (Q r) (T r))))).
Proof.
  intros fmt opts s.
  assert (H0 : getopt_loop opts initial_state = Some s) by reflexivity.
  assert (H1 : 0 <= st_decimals s <= 536870811)
    by (cbn [st_decimals s]; lia).
  assert (H2 : st_num_threads s <= iterations (st_decimals s))
    by (vm_compute; discriminate).
  assert (H3 : (31 <= 31)%nat) by lia.
  exact (conj H0 (conj H1 (conj H2 (conj H3
           (main_returns fmt opts s 31 H0 H1 H2 H3))))).
Defined.

(** X11: when the options parse, the digit count [d] is in [0, INT_MAX] and
    the thread count exceeds the [d / 14 + 10] terms, [main] never gets to
    print, whatever the depth allowed to the recursion: worker 0 is given the
    range [[0, 0)]. *)
Theorem main_starved fmt opts s :
  getopt_loop opts initial_state = Some s ->
  0 <= st_decimals s <= int_max ->
  iterations (st_decimals s) < st_num_threads s <= int_max ->
  worker_range (iterations (st_decimals s)) (st_num_threads s) 0 = (0, 0) /\
  forall fuel, main fmt fuel opts = OutOfFuel.
Proof.
  intros Hopt Hd HW.
  pose proof (iterations_bounds _ Hd) as Hit.
  assert (HN : 0 <= iterations (st_decimals s) <= int_max)
    by (unfold int_max; lia).
  split; [apply ranges_first_empty; lia|].
  intros fuel. unfold main. rewrite Hopt. unfold compute.
  cbn [set_iterations set_default_prec st_decimals st_num_threads
       st_iterations].
  replace (st_num_threads s =? 1) with false
    by (symmetry; apply Z.eqb_neq; lia).
  rewrite parallel_split_starved by lia. reflexivity.
Qed.

Lemma main_starved_witness :
  let fmt := fun _ _ _ _ : Z => EmptyString in
  let opts := [Opt_t 82] in
  let s := mk_state 1000 82 false false 64 0 None in
  getopt_loop opts initial_state = Some s /\
  0 <= st_decimals s <= int_max /\
  iterations (st_decimals s) < st_num_threads s <= int_max /\
  worker_range (iterations (st_decimals s)) (st_num_threads s) 0 = (0, 0) /\
  forall fuel, main fmt fuel opts = OutOfFuel.
Proof.
  intros fmt opts s.
  assert (H0 : getopt_loop opts initial_state = Some s) by reflexivity.
  assert (H1 : 0 <= st_decimals s <= int_max)
    by (cbn [st_decimals s]; unfold int_max; lia).
  assert (H2 : iterations (st_decimals s) < st_num_threads s <= int_max)
    by (split; vm_compute; congruence).
  exact (conj H0 (conj H1 (conj H2 (main_starved fmt opts s H0 H1 H2)))).
Defined.

(** ** The number of terms *)

(** X12: for a digit count [0 <= d <= INT_MAX] the number of terms [N]
    satisfies [14 * (N - 10) <= d < 14 * (N - 9)], lies between 10 and
    153391699, does not decrease when [d] grows, and stays below the index
    from which [6 * a - 1] or [a + b] would leave the [int] range. *)
Theorem iterations_bracket d :
  0 <= d <= int_max ->
  14 * (iterations d - 10) <= d < 14 * (iterations d - 9) /\
  10 <= iterations d <= 153391699 /\
  iterations d < leaf_limit /\
  iterations d < split_limit /\
  (forall d', 0 <= d' <= d -> iterations d' <= iterations d).
Proof.
  intros Hd.
  assert (Hq : forall x, 0 <= x <= int_max -> iterations x = x / 14 + 10).
  { intros x Hx. rewrite iterations_quot by int_lia.
    rewrite Z.quot_div_nonneg by lia. reflexivity. }
  pose proof (iterations_bounds d Hd) as Hb.
  rewrite (Hq d Hd) in *.
  pose proof (Z.div_mod d 14 ltac:(lia)).
  pose proof (Z.mod_pos_bound d 14 ltac:(lia)).
  unfold leaf_limit, split_limit.
  repeat split; try lia.
  intros d' Hd'. rewrite (Hq d') by lia.
  assert (d' / 14 <= d / 14) by (apply Z.div_le_mono; lia). lia.
Qed.

Lemma iterations_bracket_witness :
  0 <= 1000 <= int_max /\
  14 * (iterations 1000 - 10) <= 1000 < 14 * (iterations 1000 - 9) /\
  10 <= iterations 1000 <= 153391699 /\
  iterations 1000 < leaf_limit /\
  iterations 1000 < split_limit /\
  (forall d', 0 <= d' <= 1000 -> iterations d' <= iterations 1000).
Proof.
  assert (H : 0 <= 1000 <= int_max) by (unfold int_max; lia).
  exact (conj H (iterations_bracket 1000 H)).
Defined.

(** ** The divisor of the final quotient *)

Lemma combine_T_upper Px Qx Tx k B c Qy a :
  - Tx + Z.abs Px * k <= a * Qx -> 0 < B -> 0 <= c -> 0 < Qy ->
  B * (c + k + 1) <= Qy * k -> 0 <= k ->
  - (Qy * Tx + Px * (- B * c)) + Z.abs (Px * - B) * (k + 1)
  <= a * (Qx * Qy).
Proof.
  intros HT HB Hc HQ Hk Hk0.
  rewrite Z.abs_mul. replace (Z.abs (- B)) with B by lia.
  assert (H1 : Qy * (- Tx + Z.abs Px * k) <= Qy * (a * Qx)) by nia.
  assert (H2 : - (Px * (- B * c)) <= Z.abs Px * (B * c)).
  { assert (0 <= B * c) by nia. nia. }
  assert (H3 : Z.abs Px * (B * (c + k + 1) - Qy * k) <= 0).
  { assert (0 <= Z.abs Px) by lia. nia. }
  nia.
Qed.

(** From index [a >= 1] on, [- T <= a * Q - |P| * b]. *)
Lemma chain_upper a n :
  1 <= a -> a + Z.of_nat (S n) <= leaf_limit ->
  - T (chain a (S n)) + Z.abs (P (chain a (S n))) * (a + Z.of_nat (S n))
  <= a * Q (chain a (S n)).
Proof.
  intros Ha. induction n as [|n IH]; intros Hb.
  - cbn [chain]. rewrite leaf_pqt_closed by lia. cbn [P Q T].
    destruct (term_magnitude a Ha) as [HB Hmag].
    rewrite Z.abs_neq by lia.
    replace (Z.of_nat 1) with 1 by reflexivity. nia.
  - specialize (IH ltac:(lia)).
    rewrite chain_succ.
    set (k := a + Z.of_nat (S n)) in *.
    assert (Hk : 1 <= k < leaf_limit) by lia.
    rewrite (leaf_pqt_closed k Hk).
    destruct (chain a (S n)) as [Px Qx Tx]. cbn [P Q T] in *.
    destruct (term_magnitude k) as [HB Hmag]; [lia|].
    assert (0 < k ^ 3) by (apply Z.pow_pos_nonneg; lia).
    unfold combine; cbn [P Q T].
    replace (a + Z.of_nat (S (S n))) with (k + 1) by lia.
    apply combine_T_upper; lia.
Qed.

(** X13: for [1 <= N <= 357913942] the triple of the whole range [[0, N)]
    has [Q > 0] and [13591408 * Q < T <= 13591409 * Q]; in particular
    [T > 0], so the final quotient [... * Q / T] never divides by zero. *)
Theorem full_range_T_bounds N :
  1 <= N -> N <= leaf_limit ->
  exists r,
    returns 0 N r /\
    0 < Q r /\
    13591408 * Q r < T r /\
    T r <= 13591409 * Q r.
Proof.
  intros H1 HN.
  assert (Hs : N <= split_limit) by (unfold leaf_limit, split_limit in *; lia).
  exists (chain 0 (Z.to_nat N)). split.
  - pose proof (returns_chain 0 N ltac:(lia) Hs) as H.
    rewrite Z.sub_0_r in H. exact H.
  - destruct (Z.eq_dec N 1) as [->|Hne].
    + change (chain 0 (Z.to_nat 1)) with (leaf_pqt 0).
      rewrite leaf_pqt_zero. cbn [P Q T]. lia.
    + pose proof (chain_split 0 1 N ltac:(lia)) as Hsplit.
      rewrite Z.sub_0_r in Hsplit. rewrite Hsplit.
      change (chain 0 (Z.to_nat (1 - 0))) with (leaf_pqt 0).
      rewrite leaf_pqt_zero.
      destruct (Z.to_nat (N - 1)) as [|n] eqn:En; [lia|].
      destruct (chain_signs 1 n ltac:(lia) ltac:(lia)) as (HQ & HP & HT).
      pose proof (chain_upper 1 n ltac:(lia) ltac:(lia)) as HU.
      assert (HA : 0 < Z.abs (P (chain 1 (S n)))).
      { destruct (Nat.even (S n)); lia. }
      unfold combine; cbn [P Q T].
      repeat split; nia.
Qed.

Lemma full_range_T_bounds_witness :
  1 <= 81 /\ 81 <= leaf_limit /\
  exists r,
    returns 0 81 r /\
    0 < Q r /\
    13591408 * Q r < T r /\
    T r <= 13591409 * Q r.
Proof.
  assert (H0 : 1 <= 81) by lia.
  assert (H1 : 81 <= leaf_limit) by (unfold leaf_limit; lia).
  exact (conj H0 (conj H1 (full_range_T_bounds 81 H0 H1))).
Defined.

(** ** The direct summation and the binary splitting *)

Lemma fact_Z_succ n :
  Z.of_nat (fact (S n)) = (Z.of_nat n + 1) * Z.of_nat (fact n).
Proof.
  change (fact (S n)) with (S n * fact n)%nat.
  rewrite Nat2Z.inj_mul, Nat2Z.inj_succ. ring.
Qed.

Lemma fact_Z_pos n : 0 < Z.of_nat (fact n).
Proof. pose proof (lt_O_fact n). lia. Qed.

Lemma fact_Z_plus3 n :
  Z.of_nat (fact (3 + n)) =
  (Z.of_nat n + 3) * (Z.of_nat n + 2) * (Z.of_nat n + 1) * Z.of_nat (fact n).
Proof.
  change (3 + n)%nat with (S (S (S n))).
  rewrite !fact_Z_succ, !Nat2Z.inj_succ. ring.
Qed.

Lemma fact_Z_plus6 n :
  Z.of_nat (fact (6 + n)) =
  (Z.of_nat n + 6) * (Z.of_nat n + 5) * (Z.of_nat n + 4)
  * (Z.of_nat n + 3) * (Z.of_nat n + 2) * (Z.of_nat n + 1)
  * Z.of_nat (fact n).
Proof.
  change (6 + n)%nat with (3 + (3 + n))%nat.
  rewrite fact_Z_plus3, fact_Z_plus3.
  replace (Z.of_nat (3 + n)) with (Z.of_nat n + 3) by lia. ring.
Qed.

(** The ratio of consecutive direct terms is the ratio [P / Q] of a leaf. *)
Lemma factorial_ratio n :
  Z.of_nat n < leaf_limit ->
  (if Nat.even n then 1 else -1) * Z.of_nat (fact (6 * n))
  * Q (chain 0 (S n))
  = Z.of_nat (fact (3 * n)) * Z.of_nat (fact n) ^ 3
    * 640320 ^ (3 * Z.of_nat n) * P (chain 0 (S n)).
Proof.
  induction n as [|n IH]; intros Hn.
  - cbn [chain]. rewrite leaf_pqt_zero. reflexivity.
  - specialize (IH ltac:(lia)).
    rewrite chain_succ. unfold combine. cbn [P Q T].
    rewrite (leaf_pqt_closed (0 + Z.of_nat (S n))) by lia. cbn [P Q T].
    replace (6 * S n)%nat with (6 + 6 * n)%nat by lia.
    replace (3 * S n)%nat with (3 + 3 * n)%nat by lia.
    rewrite fact_Z_plus6, fact_Z_plus3, fact_Z_succ.
    replace (3 * Z.of_nat (S n)) with (3 * Z.of_nat n + 3) by lia.
    rewrite Z.pow_add_r by lia.
    rewrite Nat.even_succ, <- Nat.negb_even.
    replace (Z.of_nat (6 * n)) with (6 * Z.of_nat n) by lia.
    replace (Z.of_nat (3 * n)) with (3 * Z.of_nat n) by lia.
    replace (0 + Z.of_nat (S n)) with (Z.of_nat n + 1) by lia.
    set (k := Z.of_nat n) in *.
    set (A := Z.of_nat (fact (6 * n))) in *.
    set (F3 := Z.of_nat (fact (3 * n))) in *.
    set (F1 := Z.of_nat (fact n)) in *.
    set (E := 640320 ^ (3 * k)) in *.
    set (Qc := Q (chain 0 (S n))) in *.
    set (Pc := P (chain 0 (S n))) in *.
    transitivity
      ((if Nat.even n then 1 else -1) * A * Qc
       * (- ((6 * k + 6) * (6 * k + 5) * (6 * k + 4) * (6 * k + 3)
             * (6 * k + 2) * (6 * k + 1))
          * (10939058860032000 * (k + 1) ^ 3))).
    + destruct (Nat.even n); cbn [negb]; ring.
    + rewrite IH. ring.
Qed.

Lemma rem2_of_nat n : (Z.rem (Z.of_nat n) 2 =? 0) = Nat.even n.
Proof.
  rewrite Z.rem_mod_nonneg by lia.
  rewrite <- even_of_nat, <- Z.bit0_mod, Z.bit0_odd, <- Z.negb_even.
  destruct (Z.even (Z.of_nat n)); reflexivity.
Qed.

Lemma v1_term_values n :
  Z.of_nat n < leaf_limit ->
  V1.num (Z.of_nat n)
  = Z.of_nat (fact (6 * n)) * (13591409 + 545140134 * Z.of_nat n) /\
  V1.den (Z.of_nat n)
  = Z.of_nat (fact (3 * n)) * Z.of_nat (fact n) ^ 3
    * 640320 ^ (3 * Z.of_nat n) /\
  V1.negated (Z.of_nat n) = negb (Nat.even n).
Proof.
  unfold leaf_limit. intros Hn.
  unfold V1.num, V1.den, V1.fact6k, V1.fact3k, V1.factk, V1.negated,
         V1.mpz_fac_ui, V1.ulong_add, V1.ulong_mul.
  int_simpl.
  rewrite (Z.mod_small (545140134 * Z.of_nat n)) by lia.
  rewrite (Z.mod_small (13591409 + 545140134 * Z.of_nat n)) by lia.
  replace (Z.to_nat (6 * Z.of_nat n)) with (6 * n)%nat by lia.
  replace (Z.to_nat (3 * Z.of_nat n)) with (3 * n)%nat by lia.
  rewrite Nat2Z.id, rem2_of_nat.
  repeat split.
Qed.

Lemma v1_den_pos n : Z.of_nat n < leaf_limit -> 0 < V1.den (Z.of_nat n).
Proof.
  intros Hn. destruct (v1_term_values n Hn) as (_ & -> & _).
  pose proof (fact_Z_pos (3 * n)). pose proof (fact_Z_pos n).
  assert (0 < Z.of_nat (fact n) ^ 3) by (apply Z.pow_pos_nonneg; lia).
  assert (0 < 640320 ^ (3 * Z.of_nat n)) by (apply Z.pow_pos_nonneg; lia).
  apply Z.mul_pos_pos; [apply Z.mul_pos_pos|]; assumption.
Qed.

Lemma v1_term_split n :
  Z.of_nat n < leaf_limit ->
  V1.signed_num (Z.of_nat n) * Q (chain 0 (S n))
  = V1.den (Z.of_nat n)
    * (P (chain 0 (S n)) * (13591409 + 545140134 * Z.of_nat n)).
Proof.
  intros Hn. pose proof (factorial_ratio n Hn) as H.
  destruct (v1_term_values n Hn) as (Hnum & Hden & Hneg).
  unfold V1.signed_num. rewrite Hneg, Hnum, Hden.
  set (c := 13591409 + 545140134 * Z.of_nat n).
  transitivity ((if Nat.even n then 1 else -1) * Z.of_nat (fact (6 * n))
                * Q (chain 0 (S n)) * c).
  - destruct (Nat.even n); cbn [negb]; ring.
  - rewrite H. ring.
Qed.

Lemma chain0_Q_pos n :
  Z.of_nat n < leaf_limit -> 0 < Q (chain 0 (S n)).
Proof.
  intros Hn. destruct n as [|n].
  - cbn [chain]. rewrite leaf_pqt_zero. cbn [Q]. lia.
  - pose proof (chain_split 0 1 (Z.of_nat (S (S n))) ltac:(lia)) as Hc.
    rewrite Z.sub_0_r in Hc.
    replace (Z.to_nat (Z.of_nat (S (S n)))) with (S (S n)) in Hc by lia.
    rewrite Hc.
    replace (Z.to_nat (Z.of_nat (S (S n)) - 1)) with (S n) by lia.
    destruct (chain_signs 1 n ltac:(lia) ltac:(lia)) as (HQ1 & _).
    change (chain 0 (Z.to_nat (1 - 0))) with (leaf_pqt 0).
    rewrite leaf_pqt_zero. unfold combine. cbn [P Q T]. lia.
Qed.

(** X14: for every index [0 <= k < 357913942], the term that versions 1.0
    and 1.1 form from factorials, [(-1)^k (6k)! (13591409 + 545140134 k) /
    ((3k)! (k!)^3 640320^(3k))], is the same rational number as
    [P * (13591409 + 545140134 k) / Q] for the triple that [binary_split(0,
    k+1)] returns: the recurrence of the leaves reproduces the factorials. *)
Theorem direct_term_matches_split k :
  0 <= k -> k < leaf_limit ->
  exists r,
    returns 0 (k + 1) r /\
    0 < V1.den k /\
    0 < Q r /\
    V1.signed_num k * Q r
    = V1.den k * (P r * (13591409 + 545140134 * k)).
Proof.
  intros H0 Hk.
  assert (Hn : exists n, k = Z.of_nat n) by (exists (Z.to_nat k); lia).
  destruct Hn as [n ->].
  assert (Hs : Z.of_nat n + 1 <= split_limit)
    by (unfold leaf_limit, split_limit in *; lia).
  exists (chain 0 (S n)). split.
  - pose proof (returns_chain 0 (Z.of_nat n + 1) ltac:(lia) Hs) as H.
    replace (Z.to_nat (Z.of_nat n + 1 - 0)) with (S n) in H by lia.
    exact H.
  - split; [apply v1_den_pos; assumption|].
    split; [apply chain0_Q_pos; assumption|].
    apply v1_term_split. assumption.
Qed.

Lemma direct_term_matches_split_witness :
  0 <= 3 /\ 3 < leaf_limit /\
  exists r,
    returns 0 (3 + 1) r /\
    0 < V1.den 3 /\
    0 < Q r /\
    V1.signed_num 3 * Q r
    = V1.den 3 * (P r * (13591409 + 545140134 * 3)).
Proof.
  assert (H0 : 0 <= 3) by lia.
  assert (H1 : 3 < leaf_limit) by (unfold leaf_limit; lia).
  exact (conj H0 (conj H1 (direct_term_matches_split 3 H0 H1))).
Defined.

Lemma exact_sum_chain n :
  Z.of_nat (S n) <= leaf_limit ->
  0 < snd (V1.exact_sum (S n)) /\
  T (chain 0 (S n)) * snd (V1.exact_sum (S n))
  = fst (V1.exact_sum (S n)) * Q (chain 0 (S n)).
Proof.
  induction n as [|n IH]; intros Hn.
  - split; reflexivity.
  - destruct (IH ltac:(lia)) as [Hd HT].
    pose proof (v1_term_split (S n) ltac:(lia)) as Hterm.
    pose proof (v1_den_pos (S n) ltac:(lia)) as Hden.
    change (V1.exact_sum (S (S n)))
      with (fst (V1.exact_sum (S n)) * V1.den (Z.of_nat (S n))
            + V1.signed_num (Z.of_nat (S n)) * snd (V1.exact_sum (S n)),
            snd (V1.exact_sum (S n)) * V1.den (Z.of_nat (S n))).
    cbn [fst snd]. split; [apply Z.mul_pos_pos; assumption|].
    rewrite (chain_succ 0 n) in Hterm.
    rewrite (chain_succ 0 n).
    rewrite (leaf_pqt_closed (0 + Z.of_nat (S n))) in * by lia.
    unfold combine in *. cbn [P Q T] in *.
    replace (0 + Z.of_nat (S n)) with (Z.of_nat (S n)) in * by lia.
    set (k := Z.of_nat (S n)) in *.
    set (s := fst (V1.exact_sum (S n))) in *.
    set (d := snd (V1.exact_sum (S n))) in *.
    set (den := V1.den k) in *.
    set (sn := V1.signed_num k) in *.
    set (Tc := T (chain 0 (S n))) in *.
    set (Qc := Q (chain 0 (S n))) in *.
    set (Pc := P (chain 0 (S n))) in *.
    set (p := - ((6 * k - 5) * (2 * k - 1) * (6 * k - 1))) in *.
    set (q := 10939058860032000 * k ^ 3) in *.
    transitivity (q * den * (Tc * d)
                  + d * (den * (Pc * p * (13591409 + 545140134 * k)))).
    + ring.
    + rewrite HT, <- Hterm. ring.
Qed.

(** X15: for [1 <= n <= 357913942], the exact sum of the first [n] terms of
    versions 1.0 and 1.1 (their floating-point sum before rounding) is the
    quotient [T / Q] of the triple that [binary_split(0, n)] returns. *)
Theorem direct_sum_matches_split n :
  (1 <= n)%nat -> Z.of_nat n <= leaf_limit ->
  exists r,
    returns 0 (Z.of_nat n) r /\
    0 < snd (V1.exact_sum n) /\
    0 < Q r /\
    T r * snd (V1.exact_sum n) = fst (V1.exact_sum n) * Q r.
Proof.
  intros H1 Hn. destruct n as [|n]; [lia|].
  assert (Hs : Z.of_nat (S n) <= split_limit)
    by (unfold leaf_limit, split_limit in *; lia).
  exists (chain 0 (S n)). split.
  - pose proof (returns_chain 0 (Z.of_nat (S n)) ltac:(lia) Hs) as H.
    replace (Z.to_nat (Z.of_nat (S n) - 0)) with (S n) in H by lia.
    exact H.
  - destruct (exact_sum_chain n Hn) as [Hd HT].
    split; [exact Hd|]. split; [apply chain0_Q_pos; lia | exact HT].
Qed.

Lemma direct_sum_matches_split_witness :
  (1 <= 3)%nat /\ Z.of_nat 3 <= leaf_limit /\
  exists r,
    returns 0 (Z.of_nat 3) r /\
    0 < snd (V1.exact_sum 3) /\
    0 < Q r /\
    T r * snd (V1.exact_sum 3) = fst (V1.exact_sum 3) * Q r.
Proof.
  assert (H0 : (1 <= 3)%nat) by lia.
  assert (H1 : Z.of_nat 3 <= leaf_limit) by (unfold leaf_limit; lia).
  exact (conj H0 (conj H1 (direct_sum_matches_split 3 H0 H1))).
Defined.

(** ** The indices summed by the threads of versions 1.0 and 1.1 *)

Lemma map_seq_offset (f : nat -> Z) n : forall s,
  map f (seq s n) = map (fun i => f (s + i)%nat) (seq 0 n).
Proof.
  induction n as [|n IH]; intros s; [reflexivity|].
  cbn [seq map]. rewrite Nat.add_0_r. f_equal.
  rewrite (IH (S s)), <- seq_shift, map_map.
  apply map_ext. intros i. f_equal. lia.
Qed.

Lemma loop_indices_app a m b :
  a <= m <= b ->
  V1.loop_indices a m ++ V1.loop_indices m b = V1.loop_indices a b.
Proof.
  intros H. unfold V1.loop_indices.
  replace (Z.to_nat (b - a))
    with (Z.to_nat (m - a) + Z.to_nat (b - m))%nat by lia.
  rewrite seq_app, map_app. f_equal.
  rewrite (map_seq_offset _ _ (0 + Z.to_nat (m - a))).
  apply map_ext. intros i. lia.
Qed.

Lemma v1_indices_prefix N W :
  0 <= N <= int_max -> 1 <= W <= int_max ->
  forall j : nat, (1 <= j)%nat -> Z.of_nat j <= W ->
  List.concat (map (V1.thread_indices N W) (seq 0 j))
  = V1.loop_indices 0 (data_b N W (Z.of_nat j - 1)).
Proof.
  intros HN HW. induction j as [|j IH]; intros Hj HjW; [lia|].
  rewrite seq_S, map_app, concat_app. cbn [map List.concat Nat.add].
  rewrite app_nil_r. unfold V1.thread_indices at 2.
  change (V1.data_start N W (Z.of_nat j)) with (data_a N W (Z.of_nat j)).
  change (V1.data_end N W (Z.of_nat j)) with (data_b N W (Z.of_nat j)).
  replace (Z.of_nat (S j) - 1) with (Z.of_nat j) by lia.
  pose proof (ranges_ordered N W HN HW (Z.of_nat j) ltac:(lia)) as Hord.
  destruct j as [|j].
  - cbn [seq map List.concat app Z.of_nat].
    rewrite (ranges_start N W HN HW). reflexivity.
  - rewrite IH by lia.
    pose proof (ranges_adjacent N W HN HW (Z.of_nat (S j) - 1) ltac:(lia))
      as Hadj.
    replace (Z.of_nat (S j) - 1 + 1) with (Z.of_nat (S j)) in Hadj by lia.
    rewrite Hadj. apply loop_indices_app.
    split; [|exact Hord].
    rewrite data_a_eq by (assumption || lia).
    destruct (chunk_bounds N W HN HW). nia.
Qed.

(** X16: in versions 1.0 and 1.1, for every term count [0 <= N <= INT_MAX]
    and thread count [1 <= W <= INT_MAX], the loops of the threads visit,
    taken in the order of the threads, exactly the indices [0, 1, ..., N-1],
    each once; this also holds with more threads than terms, where the
    loops of all the threads but the last are empty. *)
Theorem v1_threads_cover_indices N W :
  0 <= N <= int_max -> 1 <= W <= int_max ->
  V1.all_indices N W = V1.loop_indices 0 N /\
  V1.loop_indices 0 N = map Z.of_nat (seq 0 (Z.to_nat N)) /\
  (N < W -> forall i : nat, Z.of_nat i < W - 1 -> V1.thread_indices N W i = []).
Proof.
  intros HN HW. split; [|split].
  - unfold V1.all_indices.
    rewrite (v1_indices_prefix N W HN HW (Z.to_nat W)) by lia.
    replace (Z.of_nat (Z.to_nat W) - 1) with (W - 1) by lia.
    rewrite (ranges_end N W HN HW). reflexivity.
  - unfold V1.loop_indices. rewrite Z.sub_0_r.
    apply map_ext. intros i. lia.
  - intros Hlt i Hi. unfold V1.thread_indices.
    change (V1.data_start N W (Z.of_nat i)) with (data_a N W (Z.of_nat i)).
    change (V1.data_end N W (Z.of_nat i)) with (data_b N W (Z.of_nat i)).
    rewrite data_a_eq, data_b_eq by lia.
    rewrite (Z.div_small N W) by lia.
    replace (Z.of_nat i =? W - 1) with false
      by (symmetry; apply Z.eqb_neq; lia).
    unfold V1.loop_indices.
    replace (Z.to_nat ((Z.of_nat i + 1) * 0 - Z.of_nat i * 0)) with O by lia.
    reflexivity.
Qed.

Lemma v1_threads_cover_indices_witness :
  0 <= 3 <= int_max /\ 1 <= 5 <= int_max /\
  V1.all_indices 3 5 = V1.loop_indices 0 3 /\
  V1.loop_indices 0 3 = map Z.of_nat (seq 0 (Z.to_nat 3)) /\
  (3 < 5 -> forall i : nat, Z.of_nat i < 5 - 1 -> V1.thread_indices 3 5 i = []).
Proof.
  assert (H0 : 0 <= 3 <= int_max) by (unfold int_max; lia).
  assert (H1 : 1 <= 5 <= int_max) by (unfold int_max; lia).
  exact (conj H0 (conj H1 (v1_threads_cover_indices 3 5 H0 H1))).
Defined.

(** ** The working precision *)

(** X17: for a digit count [0 <= d <= 536870811] the precision handed to
    [mpf_set_default_prec] is [4 * d + 400] bits, grows with [d], and is
    wide enough for [d] decimal digits with 400 bits to spare:
    [10^d * 2^400 <= 2^(default_prec d)]. *)
Theorem default_prec_holds_digits d :
  0 <= d -> d <= 536870811 ->
  default_prec d = 4 * d + 400 /\
  10 ^ d * 2 ^ 400 <= 2 ^ default_prec d /\
  (forall d', 0 <= d' <= d -> default_prec d' <= default_prec d).
Proof.
  intros H0 Hd.
  assert (Hp : forall x, 0 <= x <= d -> default_prec x = 4 * x + 400).
  { intros x Hx. rewrite default_prec_exact by lia. ring. }
  rewrite (Hp d) by lia. split; [reflexivity|]. split.
  - rewrite Z.pow_add_r by lia.
    apply Z.mul_le_mono_nonneg_r; [apply Z.pow_nonneg; lia|].
    replace (2 ^ (4 * d)) with (16 ^ d)
      by (change 16 with (2 ^ 4); rewrite <- Z.pow_mul_r by lia; reflexivity).
    apply Z.pow_le_mono_l. lia.
  - intros d' Hd'. rewrite (Hp d') by lia. lia.
Qed.

Lemma default_prec_holds_digits_witness :
  0 <= 1000 /\ 1000 <= 536870811 /\
  default_prec 1000 = 4 * 1000 + 400 /\
  10 ^ 1000 * 2 ^ 400 <= 2 ^ default_prec 1000 /\
  (forall d', 0 <= d' <= 1000 -> default_prec d' <= default_prec 1000).
Proof.
  assert (H0 : 0 <= 1000) by lia.
  assert (H1 : 1000 <= 536870811) by lia.
  exact (conj H0 (conj H1 (default_prec_holds_digits 1000 H0 H1))).
Defined.
